(** * A shallow embedding of [SparseMatrix.py]

    The Python class stores its entries in a [dict] whose keys are the
    strings [f"{row},{col}"].  That encoding is injective on integers and
    every method decodes it with [map(int, key.split(','))], so a key is
    modelled here as the pair of integers it encodes.  A Python [dict]
    keeps insertion order and unique keys: it is modelled as an
    association list, where assigning to a present key replaces the value
    in place and assigning to an absent key appends it at the end. *)

From Stdlib Require Import ZArith List Bool Lia String Ascii.
From Stdlib Require Import Permutation.
Import ListNotations.

Open Scope Z_scope.

(** ** Python dictionaries keyed by coordinates *)

Definition key := (Z * Z)%type.

Definition key_eqb (a b : key) : bool :=
  Z.eqb (fst a) (fst b) && Z.eqb (snd a) (snd b).

Definition dict := list (key * Z).

(** [d.get(k)], [None] when absent. *)
Fixpoint dict_lookup (d : dict) (k : key) : option Z :=
  match d with
  | [] => None
  | (k', v') :: rest => if key_eqb k' k then Some v' else dict_lookup rest k
  end.

(** [d[k] = v]: in place when [k] is present, appended otherwise. *)
Fixpoint dict_set (d : dict) (k : key) (v : Z) : dict :=
  match d with
  | [] => [(k, v)]
  | (k', v') :: rest =>
      if key_eqb k' k then (k', v) :: rest else (k', v') :: dict_set rest k v
  end.

Definition keys (d : dict) : list key := map fst d.

(** ** The [SparseMatrix] class *)

Record SparseMatrix := mkSparseMatrix {
  elements : dict;
  num_rows : Z;
  num_cols : Z
}.

(** Python exceptions raised by the class: all of them are [ValueError]s
    with a message (the reading of the file itself is outside the model). *)
Inductive Exc := ValueError (msg : string).

(** A small error monad: a method either returns or raises. *)
Inductive result (A : Type) :=
| Ok (a : A)
| Raise (e : Exc).
Arguments Ok {A} a.
Arguments Raise {A} e.

(** [SparseMatrix(num_rows, num_cols)] *)
Definition new (num_rows num_cols : Z) : SparseMatrix :=
  mkSparseMatrix [] num_rows num_cols.

(** [set_element(self, row, col, value)] *)
Definition set_element (self : SparseMatrix) (row col value : Z) : SparseMatrix :=
  let nr := if row >=? num_rows self then row + 1 else num_rows self in
  let nc := if col >=? num_cols self then col + 1 else num_cols self in
  mkSparseMatrix (dict_set (elements self) (row, col) value) nr nc.

(** [get_element(self, row, col)]: [self.elements.get(key, 0)] *)
Definition get_element (self : SparseMatrix) (row col : Z) : Z :=
  match dict_lookup (elements self) (row, col) with
  | Some v => v
  | None => 0
  end.

(** The body of [for key, value in self.elements.items()] in [add]. *)
Definition add_copy_step (res : SparseMatrix) (entry : key * Z) : SparseMatrix :=
  let '((row, col), value) := entry in set_element res row col value.

(** The body of [for key, value in other.elements.items()] in [add]. *)
Definition add_other_step (res : SparseMatrix) (entry : key * Z) : SparseMatrix :=
  let '((row, col), value) := entry in
  set_element res row col (get_element res row col + value).

(** [add(self, other)] *)
Definition add (self other : SparseMatrix) : result SparseMatrix :=
  if negb (num_rows self =? num_rows other) || negb (num_cols self =? num_cols other)
  then Raise (ValueError "Cannot add matrices of different dimensions.")
  else
    let result := new (num_rows self) (num_cols self) in
    let result := fold_left add_copy_step (elements self) result in
    let result := fold_left add_other_step (elements other) result in
    Ok result.

(** The body of [for key, value in other.elements.items()] in [subtract]. *)
Definition subtract_step (self : SparseMatrix) (res : SparseMatrix) (entry : key * Z)
  : SparseMatrix :=
  let '((row, col), value) := entry in
  set_element res row col (get_element self row col - value).

(** [subtract(self, other)] *)
Definition subtract (self other : SparseMatrix) : result SparseMatrix :=
  if negb (num_rows self =? num_rows other) || negb (num_cols self =? num_cols other)
  then Raise (ValueError "Cannot subtract matrices of different dimensions.")
  else
    let result := new (num_rows self) (num_cols self) in
    let result := fold_left (subtract_step self) (elements other) result in
    Ok result.

(** The inner loop body of [multiply], for the outer entry
    [(row1, col1) -> value1]. *)
Definition multiply_inner_step (row1 col1 value1 : Z) (res : SparseMatrix)
  (entry : key * Z) : SparseMatrix :=
  let '((row2, col2), value2) := entry in
  if col1 =? row2
  then set_element res row1 col2 (get_element res row1 col2 + value1 * value2)
  else res.

(** The outer loop body of [multiply]. *)
Definition multiply_outer_step (other : SparseMatrix) (res : SparseMatrix)
  (entry : key * Z) : SparseMatrix :=
  let '((row1, col1), value1) := entry in
  fold_left (multiply_inner_step row1 col1 value1) (elements other) res.

(** [multiply(self, other)] *)
Definition multiply (self other : SparseMatrix) : result SparseMatrix :=
  if negb (num_cols self =? num_rows other)
  then Raise (ValueError "Cannot multiply: column count of the first matrix must equal row count of the second.")
  else
    let result := new (num_rows self) (num_cols other) in
    let result := fold_left (multiply_outer_step other) (elements self) result in
    Ok result.

(** ** Python strings *)

Local Open Scope string_scope.

(** The characters of code point 0 to 255 for which [str.isspace()]
    holds, the whitespace that [str.strip()] and [int()] remove: ['\t'] to
    ['\r'], the separators 28 to 31, the space, U+0085 and U+00A0. *)
Definition is_space (c : ascii) : bool :=
  let n := nat_of_ascii c in
  (Nat.eqb n 32 || ((9 <=? n)%nat && (n <=? 13)%nat) || ((28 <=? n)%nat && (n <=? 31)%nat)
   || Nat.eqb n 133 || Nat.eqb n 160).

Fixpoint lstrip (s : string) : string :=
  match s with
  | EmptyString => EmptyString
  | String a r => if is_space a then lstrip r else s
  end.

Fixpoint rstrip (s : string) : string :=
  match s with
  | EmptyString => EmptyString
  | String a r =>
      match rstrip r with
      | EmptyString => if is_space a then EmptyString else String a EmptyString
      | r' => String a r'
      end
  end.

(** [s.strip()] *)
Definition strip (s : string) : string := rstrip (lstrip s).

(** [s.split(sep)] for a one-character separator. *)
Fixpoint split_on (sep : ascii) (s : string) : list string :=
  match s with
  | EmptyString => [EmptyString]
  | String a r =>
      if Ascii.eqb a sep then EmptyString :: split_on sep r
      else match split_on sep r with
           | h :: t => String a h :: t
           | [] => [String a EmptyString]
           end
  end.

(** [s.startswith(c)] and [s.endswith(c)] for one character. *)
Definition startswith (c : ascii) (s : string) : bool :=
  match s with
  | String a _ => Ascii.eqb a c
  | EmptyString => false
  end.

Fixpoint endswith (c : ascii) (s : string) : bool :=
  match s with
  | EmptyString => false
  | String a EmptyString => Ascii.eqb a c
  | String _ r => endswith c r
  end.

(** [line[1:-1]] for a line of length at least 2. *)
Definition strip_parens (line : string) : string :=
  substring 1 (String.length line - 2) line.

(** *** [int(s)] on strings of code points 0 to 255

    Surrounding whitespace is ignored, one optional sign, then decimal
    digits where single underscores may separate two digits. *)

Definition is_digit (c : ascii) : bool :=
  ((48 <=? nat_of_ascii c)%nat && (nat_of_ascii c <=? 57)%nat).

Definition digit_value (c : ascii) : Z := Z.of_nat (nat_of_ascii c) - 48.

(** [ok] records that the previous character was a digit. *)
Fixpoint digits_val (acc : Z) (ok : bool) (s : string) : option Z :=
  match s with
  | EmptyString => if ok then Some acc else None
  | String c r =>
      if is_digit c then digits_val (acc * 10 + digit_value c) true r
      else if Ascii.eqb c "_" && ok then digits_val acc false r
      else None
  end.

Definition py_int (s : string) : option Z :=
  match strip s with
  | String c r =>
      if Ascii.eqb c "-" then option_map Z.opp (digits_val 0 false r)
      else if Ascii.eqb c "+" then digits_val 0 false r
      else digits_val 0 false (String c r)
  | EmptyString => None
  end.

(** *** [str(n)] for integers *)

Definition digit_char (d : Z) : ascii := ascii_of_nat (48 + Z.to_nat d).

Fixpoint digits_of (fuel : nat) (n : Z) (acc : string) : string :=
  match fuel with
  | O => acc
  | S f =>
      if (n <? 10)%Z then String (digit_char n) acc
      else digits_of f (n / 10) (String (digit_char (n mod 10)) acc)
  end.

Definition str_nat (n : Z) : string :=
  digits_of (S (Z.to_nat (Z.log2 n))) n EmptyString.

Definition str_Z (z : Z) : string :=
  if (z <? 0)%Z then String "-" (str_nat (- z)) else str_nat z.

Definition newline : ascii := ascii_of_nat 10.

(** ** Text form and parsing *)

(** [__str__(self)] *)
Definition entry_line (e : key * Z) : string :=
  let '((row, col), value) := e in
  "(" ++ str_Z row ++ ", " ++ str_Z col ++ ", " ++ str_Z value ++ ")".

Definition to_str (self : SparseMatrix) : string :=
  String.concat (String newline EmptyString)
    (("rows=" ++ str_Z (num_rows self)) :: ("cols=" ++ str_Z (num_cols self))
       :: map entry_line (elements self)).

(** [_parse_matrix_file(file_path)], applied to the file's text as
    [readlines] sees it (after newline translation): the lines, stripped,
    blank ones dropped.  [readlines] keeps the ['\n'] of each line, which
    [strip] removes; the empty piece after a final ['\n'] is blank. *)
Definition _parse_matrix_file (content : string) : list string :=
  filter (fun line => negb (String.eqb (strip line) EmptyString))
    (map strip (split_on newline content)).

(** [int(lines[i].split('=')[1])] *)
Definition parse_dim (line : string) : option Z :=
  match nth_error (split_on "=" line) 1 with
  | Some s => py_int s
  | None => None
  end.

(** [int(elements[0].strip())], [int(elements[1].strip())],
    [int(elements[2].strip())]: an [IndexError] or a [ValueError]. *)
Definition parse_fields (fields : list string) : option (Z * Z * Z) :=
  match nth_error fields 0, nth_error fields 1, nth_error fields 2 with
  | Some f0, Some f1, Some f2 =>
      match py_int (strip f0), py_int (strip f1), py_int (strip f2) with
      | Some row, Some col, Some value => Some (row, col, value)
      | _, _, _ => None
      end
  | _, _, _ => None
  end.

(** The loop [for line in lines[2:]] of [from_file]. *)
Fixpoint load_elements (matrix : SparseMatrix) (lines : list string)
  : result SparseMatrix :=
  match lines with
  | [] => Ok matrix
  | line :: rest =>
      if negb (startswith "(" line) || negb (endswith ")" line)
      then Raise (ValueError ("Invalid format for matrix element: " ++ line))
      else
        match parse_fields (split_on "," (strip_parens line)) with
        | None => Raise (ValueError ("Invalid matrix element format in file: " ++ line))
        | Some (row, col, value) => load_elements (set_element matrix row col value) rest
        end
  end.

(** [from_file(matrix_file_path)], on the path and the text of the file. *)
Definition from_file (matrix_file_path content : string) : result SparseMatrix :=
  let lines := _parse_matrix_file content in
  if (List.length lines <? 2)%nat
  then Raise (ValueError ("File " ++ matrix_file_path
                          ++ " must contain at least two lines for dimensions."))
  else
    match parse_dim (nth 0 lines EmptyString), parse_dim (nth 1 lines EmptyString) with
    | Some nr, Some nc => load_elements (new nr nc) (skipn 2 lines)
    | _, _ => Raise (ValueError ("Invalid matrix dimensions in " ++ matrix_file_path ++ "."))
    end.

Local Close Scope string_scope.

(** ** Auxiliary definitions for the proofs *)

(** Building a matrix by a sequence of [set_element] calls. *)
Definition set_all (m : SparseMatrix) (entries : list (Z * Z * Z)) : SparseMatrix :=
  fold_left (fun res '(r, c, v) => set_element res r c v) entries m.

(** The one-newline string that joins the lines of the text form. *)
Definition nl := String newline EmptyString.

(** [d.get(k, 0)] *)
Definition opt_get (o : option Z) : Z :=
  match o with Some v => v | None => 0 end.

(** The value [add] stores at a key, from the values of its operands. *)
Definition add_entry (a b : option Z) : option Z :=
  match a, b with
  | Some x, Some y => Some (x + y)
  | Some x, None => Some x
  | None, Some y => Some y
  | None, None => None
  end.

(** Sums over lists. *)
Definition sumZ {X : Type} (f : X -> Z) (l : list X) : Z :=
  fold_right (fun x acc => f x + acc) 0 l.

Definition dget (d : dict) (k : key) : Z := opt_get (dict_lookup d k).

(** The columns of the entries of row [i]. *)
Definition row_cols (d : dict) (i : Z) : list Z :=
  map (fun e => snd (fst e)) (filter (fun e => fst (fst e) =? i) d).

(** Every stored coordinate lies below the declared shape. *)
Definition in_bounds (m : SparseMatrix) : Prop :=
  forall k v, In (k, v) (elements m) -> fst k < num_rows m /\ snd k < num_cols m.

(** A well-formed matrix: a Python [dict] has no duplicate keys, and the
    shape covers every key. *)
Definition wf (m : SparseMatrix) : Prop :=
  NoDup (keys (elements m)) /\ in_bounds m.

(** The matrices the class can produce. *)
Inductive reachable : SparseMatrix -> Prop :=
| reach_new nr nc : reachable (new nr nc)
| reach_set m r c v : reachable m -> reachable (set_element m r c v)
| reach_from_file path content m :
    from_file path content = Ok m -> reachable m
| reach_add A B C : reachable A -> reachable B -> add A B = Ok C -> reachable C
| reach_subtract A B C :
    reachable A -> reachable B -> subtract A B = Ok C -> reachable C
| reach_multiply A B C :
    reachable A -> reachable B -> multiply A B = Ok C -> reachable C.

(** Every character of a string satisfies [p]. *)
Fixpoint str_forall (p : ascii -> bool) (s : string) : bool :=
  match s with
  | EmptyString => true
  | String c r => p c && str_forall p r
  end.

Definition not_space (c : ascii) : bool := negb (is_space c).

Definition no_char (sep : ascii) (s : string) : bool :=
  str_forall (fun c => negb (Ascii.eqb c sep)) s.

(** The text between the parentheses of an element line. *)
Definition entry_body (r c v : Z) : string :=
  (str_Z r ++ String "," (String " " (str_Z c) ++ String "," (String " " (str_Z v))))%string.

(** A body line that is not wrapped in parentheses, or whose text inside
    them has fewer than three comma-separated fields or a field among the
    first three that [int] rejects. *)
Definition malformed_element_line (line : string) : Prop :=
  (negb (startswith "(" line) || negb (endswith ")" line)) = true \/
  (List.length (split_on "," (strip_parens line)) < 3)%nat \/
  exists f, In f (firstn 3 (split_on "," (strip_parens line))) /\ py_int (strip f) = None.

(** The matrices of the spec's 2x2 scenario, built as [from_file]
    builds them. *)
Definition matrix_A : SparseMatrix :=
  set_all (new 2 2) [(0, 0, 1); (0, 1, 2); (1, 0, 3); (1, 1, 4)].

Definition matrix_B : SparseMatrix :=
  set_all (new 2 2) [(0, 0, 1); (1, 1, 1)].

(** ** Files, console and the driver [do_some_operations] *)

Local Open Scope string_scope.

(** The exceptions the driver can meet. [input] at the end of its input
    raises [EOFError("EOF when reading a line")] (the message when the
    input is not a terminal); [getattr] with an unknown name raises
    [AttributeError]. *)
Inductive PyExc :=
| PyValueError (msg : string)
| PyFileNotFoundError (msg : string)
| PyEOFError
| PyAttributeError (msg : string).

(** [str(e)] *)
Definition exc_str (e : PyExc) : string :=
  match e with
  | PyValueError msg => msg
  | PyFileNotFoundError msg => msg
  | PyEOFError => "EOF when reading a line"
  | PyAttributeError msg => msg
  end.

(** What the program writes to the console: the lines of [print] and the
    prompts of [input]. *)
Inductive console_item :=
| Printed (s : string)
| Prompted (s : string).

(** The world the driver runs in: the files (path and text), the lines
    the user will type, and what has been written to the console. *)
Record World := mkWorld {
  files : list (string * string);
  stdin : list string;
  stdout : list console_item
}.

Inductive outcome (A : Type) :=
| Done (a : A)
| Thrown (e : PyExc).
Arguments Done {A} a.
Arguments Thrown {A} e.

(** A state and exception monad over the world. *)
Definition IO (A : Type) : Type := World -> outcome A * World.

Definition ret {A : Type} (a : A) : IO A := fun w => (Done a, w).

Definition bind_io {A B : Type} (m : IO A) (k : A -> IO B) : IO B :=
  fun w => match m w with
           | (Done a, w') => k a w'
           | (Thrown e, w') => (Thrown e, w')
           end.

Definition raise {A : Type} (e : PyExc) : IO A := fun w => (Thrown e, w).

(** [try: body except Exception as e: handler(e)] *)
Definition try_except {A : Type} (body : IO A) (handler : PyExc -> IO A) : IO A :=
  fun w => match body w with
           | (Done a, w') => (Done a, w')
           | (Thrown e, w') => handler e w'
           end.

(** A [ValueError] of the class, re-raised in the driver. *)
Definition lift {A : Type} (r : result A) : IO A :=
  match r with
  | Ok a => ret a
  | Raise (ValueError msg) => raise (PyValueError msg)
  end.

Local Close Scope string_scope.

Notation "x <- m ;; k" := (bind_io m (fun x => k))
  (at level 61, m at next level, right associativity).
Notation "m ;; k" := (bind_io m (fun _ => k)) (at level 61, right associativity).

Local Open Scope string_scope.

(** [print(s)] *)
Definition print (s : string) : IO unit :=
  fun w => (Done tt, mkWorld (files w) (stdin w) (app (stdout w) [Printed s])).

(** [get_user_input(prompt)], that is [input(prompt)]. *)
Definition get_user_input (prompt : string) : IO string :=
  fun w =>
    let out := app (stdout w) [Prompted prompt] in
    match stdin w with
    | [] => (Thrown PyEOFError, mkWorld (files w) [] out)
    | line :: rest => (Done line, mkWorld (files w) rest out)
    end.

Fixpoint fs_lookup (fs : list (string * string)) (path : string) : option string :=
  match fs with
  | [] => None
  | (p, text) :: rest => if String.eqb p path then Some text else fs_lookup rest path
  end.

(** Opening [path] for writing replaces the text of the file, or creates it. *)
Fixpoint fs_write (fs : list (string * string)) (path text : string)
  : list (string * string) :=
  match fs with
  | [] => [(path, text)]
  | (p, t) :: rest =>
      if String.eqb p path then (p, text) :: rest else (p, t) :: fs_write rest path text
  end.

(** [file_path.replace("\\", "/")] *)
Fixpoint replace_backslash (s : string) : string :=
  match s with
  | EmptyString => EmptyString
  | String c r =>
      String (if Ascii.eqb c (ascii_of_nat 92) then "/"%char else c) (replace_backslash r)
  end.

(** The [open] and [readlines] of [_parse_matrix_file]: the text of the
    file, or [FileNotFoundError(f"File not found: {file_path}")].  The
    files of the world are readable text files: the other errors [open]
    can raise (a directory, no permission, undecodable bytes) are left out. *)
Definition read_matrix_file (file_path : string) : IO string :=
  fun w =>
    match fs_lookup (files w) (replace_backslash file_path) with
    | Some text => (Done text, w)
    | None => (Thrown (PyFileNotFoundError ("File not found: " ++ file_path)), w)
    end.

(** [SparseMatrix.from_file(matrix_file_path)] in the world. *)
Definition load_from_file (matrix_file_path : string) : IO SparseMatrix :=
  content <- read_matrix_file matrix_file_path ;;
  lift (from_file matrix_file_path content).

(** [save_to_file(self, file_path)] *)
Definition save_to_file (self : SparseMatrix) (file_path : string) : IO unit :=
  fun w => (Done tt, mkWorld (fs_write (files w) file_path (to_str self)) (stdin w) (stdout w)).

(** The [operations] dictionary of the driver and [choice in operations]. *)
Definition operations : list (string * (string * string)) :=
  [("A", ("addition", "add"));
   ("B", ("subtraction", "subtract"));
   ("C", ("multiplication", "multiply"))].

Fixpoint lookup_op (ops : list (string * (string * string))) (choice : string)
  : option (string * string) :=
  match ops with
  | [] => None
  | (k, v) :: rest => if String.eqb k choice then Some v else lookup_op rest choice
  end.

(** [getattr(self, method)(other)] for the methods of the class that take
    one matrix. *)
Definition call_method (self : SparseMatrix) (method : string) (other : SparseMatrix)
  : IO SparseMatrix :=
  if String.eqb method "add" then lift (add self other)
  else if String.eqb method "subtract" then lift (subtract self other)
  else if String.eqb method "multiply" then lift (multiply self other)
  else raise (PyAttributeError ("'SparseMatrix' object has no attribute '" ++ method ++ "'")).

(** [do_some_operations()] *)
Definition do_some_operations : IO unit :=
  try_except
    (print "MATRIX Operations: " ;;
     print "(A) Addition" ;;
     print "(B) Subtraction" ;;
     print "(C) Multiplication" ;;
     choice <- get_user_input "Choose operation (A,B,C): " ;;
     match lookup_op operations choice with
     | None => raise (PyValueError "Invalid option.")
     | Some (operation_name, method) =>
         file1 <- get_user_input "Enter path for the first matrix file: " ;;
         file2 <- get_user_input "Enter path for the second matrix file: " ;;
         print ("Loading first matrix from " ++ file1 ++ "...") ;;
         matrix1 <- load_from_file file1 ;;
         print ("Loaded matrix of size " ++ str_Z (num_rows matrix1) ++ "x"
                ++ str_Z (num_cols matrix1) ++ " successfully") ;;
         print ("Loading second matrix from " ++ file2 ++ "...") ;;
         matrix2 <- load_from_file file2 ;;
         print ("Loaded matrix of size " ++ str_Z (num_rows matrix2) ++ "x"
                ++ str_Z (num_cols matrix2) ++ " successfully") ;;
         print ("Performing " ++ operation_name ++ "...") ;;
         result <- call_method matrix1 method matrix2 ;;
         save_to_file result (operation_name ++ "_output.txt") ;;
         print ("Operation completed successfully. Output saved to "
                ++ (operation_name ++ "_output.txt") ++ ".")
     end)
    (fun e => print ("Error: " ++ exc_str e)).

Local Close Scope string_scope.

(** The lines [do_some_operations] prints before it reads the choice. *)
Definition menu : list console_item :=
  [Printed "MATRIX Operations: "; Printed "(A) Addition"; Printed "(B) Subtraction";
   Printed "(C) Multiplication"]%string.

(** The [n x n] identity matrix, built by [set_element] calls. *)
Definition identity (n : nat) : SparseMatrix :=
  set_all (new (Z.of_nat n) (Z.of_nat n)) (map (fun i => (Z.of_nat i, Z.of_nat i, 1)) (seq 0 n)).

(** The triple [(row, col, value)] of a [set_element] call as a dictionary entry. *)
Definition triple_entry (t : Z * Z * Z) : key * Z := let '(r, c, v) := t in ((r, c), v).

(** The three integers [from_file] reads from an element line. *)
Definition parse_element_line (line : string) : option (Z * Z * Z) :=
  parse_fields (split_on "," (strip_parens line)).

(** The test [line.startswith("(") and line.endswith(")")] of [from_file]. *)
Definition parenthesized (line : string) : bool :=
  (startswith "(" line && endswith ")" line)%bool.



(** ** Sanity checks on small inputs *)

Example add_ex :
  match add (set_all (new 2 2) [(0,0,1); (0,1,2); (1,0,3); (1,1,4)])
            (set_all (new 2 2) [(0,0,1); (1,1,1)]) with
  | Ok m => elements m
  | Raise _ => []
  end = [((0,0),2); ((0,1),2); ((1,0),3); ((1,1),5)].
Proof. reflexivity. Qed.

Example from_file_ex :
  match from_file "a.txt" ("rows=2" ++ nl ++ " cols=3 " ++ nl ++ nl ++ "(1, -2, 3_0)" ++ nl)%string with
  | Ok m => Some (elements m, num_rows m, num_cols m)
  | Raise _ => None
  end = Some ([((1,-2),30)], 2, 3).
Proof. reflexivity. Qed.

Example str_ex : to_str (set_all (new 2 2) [(0,10,-125); (1,1,0)]) =
  ("rows=2" ++ nl ++ "cols=11" ++ nl ++ "(0, 10, -125)" ++ nl ++ "(1, 1, 0)")%string.
Proof. reflexivity. Qed.

(** ** Dictionary lemmas *)

Lemma key_eqb_spec (a b : key) : reflect (a = b) (key_eqb a b).
Proof.
  destruct a as [a1 a2], b as [b1 b2]; unfold key_eqb; simpl.
  destruct (Z.eqb_spec a1 b1), (Z.eqb_spec a2 b2); simpl; constructor; congruence.
Qed.

Lemma key_eqb_refl (a : key) : key_eqb a a = true.
Proof. destruct (key_eqb_spec a a); congruence. Qed.

Lemma dict_lookup_set (d : dict) (k k' : key) (v : Z) :
  dict_lookup (dict_set d k v) k' =
  if key_eqb k k' then Some v else dict_lookup d k'.
Proof.
  induction d as [|[k0 v0] d IH]; simpl; [reflexivity|].
  destruct (key_eqb_spec k0 k) as [->|Hne]; simpl.
  - destruct (key_eqb k k'); reflexivity.
  - rewrite IH. destruct (key_eqb_spec k k') as [<-|]; [|reflexivity].
    destruct (key_eqb_spec k0 k); congruence.
Qed.

Lemma keys_dict_set (d : dict) (k x : key) (v : Z) :
  In x (keys (dict_set d k v)) <-> x = k \/ In x (keys d).
Proof.
  induction d as [|[k0 v0] d IH]; simpl; [intuition congruence|].
  destruct (key_eqb_spec k0 k) as [->|Hne]; simpl; [intuition congruence|].
  rewrite IH. intuition congruence.
Qed.

Lemma NoDup_dict_set (d : dict) (k : key) (v : Z) :
  NoDup (keys d) -> NoDup (keys (dict_set d k v)).
Proof.
  induction d as [|[k0 v0] d IH]; simpl; intros Hnd.
  - constructor; [easy | constructor].
  - inversion Hnd as [|? ? Hnotin Hnd']; subst.
    destruct (key_eqb_spec k0 k) as [->|Hne]; simpl; constructor; auto.
    rewrite keys_dict_set. intuition congruence.
Qed.

Lemma dict_lookup_None (d : dict) (k : key) :
  dict_lookup d k = None <-> ~ In k (keys d).
Proof.
  induction d as [|[k0 v0] d IH]; simpl; [tauto|].
  destruct (key_eqb_spec k0 k) as [->|Hne]; [split; [discriminate | tauto]|].
  rewrite IH. intuition congruence.
Qed.

Lemma dict_lookup_Some_In (d : dict) (k : key) (v : Z) :
  dict_lookup d k = Some v -> In (k, v) d.
Proof.
  induction d as [|[k0 v0] d IH]; simpl; [discriminate|].
  destruct (key_eqb_spec k0 k) as [->|Hne]; [injection 1 as ->; auto|auto].
Qed.

Lemma In_dict_lookup (d : dict) (k : key) (v : Z) :
  NoDup (keys d) -> In (k, v) d -> dict_lookup d k = Some v.
Proof.
  induction d as [|[k0 v0] d IH]; simpl; [tauto|].
  intros Hnd Hin. inversion Hnd as [|? ? Hnotin Hnd']; subst.
  destruct (key_eqb_spec k0 k) as [->|Hne].
  - destruct Hin as [Heq|Hin]; [congruence|].
    exfalso. apply Hnotin. apply (in_map fst) in Hin. exact Hin.
  - destruct Hin as [Heq|Hin]; [congruence|auto].
Qed.

Lemma In_dict_set (d : dict) (k k' : key) (v v' : Z) :
  In (k', v') (dict_set d k v) -> k' = k \/ In (k', v') d.
Proof.
  induction d as [|[k0 v0] d IH]; simpl.
  - intros [H|[]]. injection H; auto.
  - destruct (key_eqb_spec k0 k) as [->|Hne]; simpl.
    + intros [H|H]; [injection H; auto|auto].
    + intros [H|H]; [auto|]. destruct (IH H); auto.
Qed.

Lemma get_element_set (m : SparseMatrix) (r c v i j : Z) :
  get_element (set_element m r c v) i j =
  if key_eqb (r, c) (i, j) then v else get_element m i j.
Proof.
  unfold get_element; simpl. rewrite dict_lookup_set.
  destruct (key_eqb (r, c) (i, j)); reflexivity.
Qed.

(** ** The loops of [add] and [subtract] *)

Lemma add_copy_lookup (L : dict) (m : SparseMatrix) (k : key) :
  NoDup (keys L) ->
  dict_lookup (elements (fold_left add_copy_step L m)) k =
  match dict_lookup L k with
  | Some v => Some v
  | None => dict_lookup (elements m) k
  end.
Proof.
  revert m. induction L as [|[[r c] v] L IH]; intros m Hnd; simpl; [reflexivity|].
  inversion Hnd as [|? ? Hnotin Hnd']; subst.
  rewrite IH by exact Hnd'. simpl. rewrite dict_lookup_set.
  destruct (key_eqb_spec (r, c) k) as [<-|Hne].
  - apply dict_lookup_None in Hnotin. rewrite Hnotin. reflexivity.
  - destruct (dict_lookup L k); reflexivity.
Qed.

Lemma add_other_lookup (L : dict) (m : SparseMatrix) (k : key) :
  NoDup (keys L) ->
  dict_lookup (elements (fold_left add_other_step L m)) k =
  match dict_lookup L k with
  | Some v => Some (opt_get (dict_lookup (elements m) k) + v)
  | None => dict_lookup (elements m) k
  end.
Proof.
  revert m. induction L as [|[[r c] v] L IH]; intros m Hnd; simpl; [reflexivity|].
  inversion Hnd as [|? ? Hnotin Hnd']; subst.
  rewrite IH by exact Hnd'. simpl. rewrite dict_lookup_set.
  destruct (key_eqb_spec (r, c) k) as [<-|Hne].
  - apply dict_lookup_None in Hnotin. rewrite Hnotin. reflexivity.
  - destruct (dict_lookup L k); [|reflexivity].
    destruct (key_eqb_spec (r, c) k); [congruence|reflexivity].
Qed.

Lemma subtract_lookup (A : SparseMatrix) (L : dict) (m : SparseMatrix) (k : key) :
  NoDup (keys L) ->
  dict_lookup (elements (fold_left (subtract_step A) L m)) k =
  match dict_lookup L k with
  | Some v => Some (get_element A (fst k) (snd k) - v)
  | None => dict_lookup (elements m) k
  end.
Proof.
  revert m. induction L as [|[[r c] v] L IH]; intros m Hnd; simpl; [reflexivity|].
  inversion Hnd as [|? ? Hnotin Hnd']; subst.
  rewrite IH by exact Hnd'. simpl. rewrite dict_lookup_set.
  destruct (key_eqb_spec (r, c) k) as [<-|Hne].
  - apply dict_lookup_None in Hnotin. rewrite Hnotin. reflexivity.
  - destruct (dict_lookup L k); reflexivity.
Qed.

Lemma add_lookup (A B C : SparseMatrix) (k : key) :
  NoDup (keys (elements A)) -> NoDup (keys (elements B)) ->
  add A B = Ok C ->
  dict_lookup (elements C) k =
  add_entry (dict_lookup (elements A) k) (dict_lookup (elements B) k).
Proof.
  intros HA HB. unfold add.
  destruct (_ || _); [discriminate|]. intros H; injection H as <-.
  rewrite add_other_lookup by exact HB. rewrite add_copy_lookup by exact HA.
  simpl. destruct (dict_lookup (elements A) k), (dict_lookup (elements B) k);
    reflexivity.
Qed.

Lemma add_ok (A B : SparseMatrix) :
  num_rows A = num_rows B -> num_cols A = num_cols B ->
  exists C, add A B = Ok C.
Proof.
  intros Hr Hc. unfold add. rewrite Hr, Hc, !Z.eqb_refl. simpl. eauto.
Qed.

(** ** The loops of [multiply] *)

Lemma get_element_dget (m : SparseMatrix) (i j : Z) :
  get_element m i j = dget (elements m) (i, j).
Proof. reflexivity. Qed.

Lemma sumZ_ext_in {X : Type} (f g : X -> Z) (l : list X) :
  (forall x, In x l -> f x = g x) -> sumZ f l = sumZ g l.
Proof.
  induction l as [|x l IH]; simpl; intros H; [reflexivity|].
  rewrite H by auto. rewrite IH by auto. reflexivity.
Qed.

Lemma sumZ_perm {X : Type} (f : X -> Z) (l l' : list X) :
  Permutation l l' -> sumZ f l = sumZ f l'.
Proof.
  induction 1; simpl; try lia.
Qed.

Lemma sumZ_filter_nonzero {X : Type} (f : X -> Z) (l : list X) :
  sumZ f l = sumZ f (filter (fun x => negb (f x =? 0)) l).
Proof.
  induction l as [|x l IH]; simpl; [reflexivity|].
  destruct (Z.eqb_spec (f x) 0); simpl; lia.
Qed.

(** A finitely supported sum does not depend on the finite set it is
    taken over, as long as that set is duplicate-free and covers the
    support. *)
Lemma sumZ_support (f : Z -> Z) (K1 K2 : list Z) :
  NoDup K1 -> NoDup K2 ->
  (forall k, f k <> 0 -> In k K1) -> (forall k, f k <> 0 -> In k K2) ->
  sumZ f K1 = sumZ f K2.
Proof.
  intros N1 N2 S1 S2.
  rewrite (sumZ_filter_nonzero f K1), (sumZ_filter_nonzero f K2).
  apply sumZ_perm, NoDup_Permutation; try apply NoDup_filter; auto.
  intros k. rewrite !filter_In.
  destruct (Z.eqb_spec (f k) 0) as [E|E]; simpl.
  - split; intros [_ H]; discriminate.
  - split; intros _; split; auto.
Qed.

Lemma multiply_inner_get (r1 c1 v1 : Z) (L : dict) (m : SparseMatrix) (i j : Z) :
  get_element (fold_left (multiply_inner_step r1 c1 v1) L m) i j =
  get_element m i j +
  sumZ (fun '((r2, c2), v2) =>
          if c1 =? r2 then (if key_eqb (r1, c2) (i, j) then v1 * v2 else 0) else 0) L.
Proof.
  revert m. induction L as [|[[r2 c2] v2] L IH]; intros m; simpl; [lia|].
  rewrite IH. destruct (c1 =? r2); [|lia].
  rewrite get_element_set. destruct (key_eqb_spec (r1, c2) (i, j)) as [Heq|]; [|lia].
  injection Heq as -> ->. lia.
Qed.

Lemma multiply_outer_get (B : SparseMatrix) (L : dict) (m : SparseMatrix) (i j : Z) :
  get_element (fold_left (multiply_outer_step B) L m) i j =
  get_element m i j +
  sumZ (fun '((r1, c1), v1) =>
          sumZ (fun '((r2, c2), v2) =>
                  if c1 =? r2 then (if key_eqb (r1, c2) (i, j) then v1 * v2 else 0) else 0)
               (elements B)) L.
Proof.
  revert m. induction L as [|[[r1 c1] v1] L IH]; intros m; simpl; [lia|].
  rewrite IH. unfold multiply_outer_step. rewrite multiply_inner_get. lia.
Qed.

(** Against a duplicate-free [B], the inner sum picks [B[c1, j]]. *)
Lemma multiply_inner_sum (r1 c1 v1 i j : Z) (L : dict) :
  NoDup (keys L) ->
  sumZ (fun '((r2, c2), v2) =>
          if c1 =? r2 then (if key_eqb (r1, c2) (i, j) then v1 * v2 else 0) else 0) L =
  if r1 =? i then v1 * dget L (c1, j) else 0.
Proof.
  unfold dget. induction L as [|[[r2 c2] v2] L IH]; simpl; intros Hnd.
  - destruct (r1 =? i); lia.
  - inversion Hnd as [|? ? Hnotin Hnd']; subst. rewrite IH by exact Hnd'.
    destruct (key_eqb_spec (r2, c2) (c1, j)) as [Heq|Hne].
    + injection Heq as -> ->. rewrite Z.eqb_refl.
      apply dict_lookup_None in Hnotin. rewrite Hnotin. simpl.
      destruct (key_eqb_spec (r1, j) (i, j)) as [Heq|Hne];
        destruct (Z.eqb_spec r1 i); try congruence; lia.
    + destruct (Z.eqb_spec c1 r2) as [->|]; [|lia].
      destruct (key_eqb_spec (r1, c2) (i, j)) as [Heq|]; [|lia].
      injection Heq as -> ->. congruence.
Qed.

Lemma row_cols_In (d : dict) (i k : Z) :
  In k (row_cols d i) -> In (i, k) (keys d).
Proof.
  unfold row_cols, keys. rewrite in_map_iff. intros [[[r c] v] [<- Hin]].
  apply filter_In in Hin as [Hin Hr]. simpl in *. apply Z.eqb_eq in Hr. subst.
  apply (in_map fst) in Hin. exact Hin.
Qed.

Lemma row_cols_NoDup (d : dict) (i : Z) :
  NoDup (keys d) -> NoDup (row_cols d i).
Proof.
  induction d as [|[[r c] v] d IH]; simpl; intros Hnd; [constructor|].
  inversion Hnd as [|? ? Hnotin Hnd']; subst.
  unfold row_cols in *; simpl. destruct (Z.eqb_spec r i) as [->|]; simpl; auto.
  constructor; auto. intros Hin. apply Hnotin, (row_cols_In d i c), Hin.
Qed.

Lemma row_cols_support (d : dict) (i k : Z) :
  dget d (i, k) <> 0 -> In k (row_cols d i).
Proof.
  unfold dget. destruct (dict_lookup d (i, k)) eqn:E; simpl; [|congruence].
  intros _. apply dict_lookup_Some_In in E.
  unfold row_cols. apply in_map_iff. exists ((i, k), z). split; [reflexivity|].
  apply filter_In. split; [exact E|apply Z.eqb_refl].
Qed.

Lemma multiply_row_sum (i : Z) (h : Z -> Z) (d : dict) :
  NoDup (keys d) ->
  sumZ (fun '((r1, c1), v1) => if r1 =? i then v1 * h c1 else 0) d =
  sumZ (fun k => dget d (i, k) * h k) (row_cols d i).
Proof.
  unfold dget. induction d as [|[[r c] v] d IH]; simpl; intros Hnd; [reflexivity|].
  inversion Hnd as [|? ? Hnotin Hnd']; subst. rewrite IH by exact Hnd'.
  unfold row_cols; simpl. destruct (Z.eqb_spec r i) as [->|Hri]; simpl.
  - rewrite key_eqb_refl. simpl. f_equal.
    apply sumZ_ext_in. intros k Hk.
    destruct (key_eqb_spec (i, c) (i, k)) as [Heq|]; [|reflexivity].
    injection Heq as ->. exfalso. apply Hnotin, (row_cols_In d i k), Hk.
  - apply sumZ_ext_in. intros k _.
    destruct (key_eqb_spec (r, c) (i, k)) as [Heq|]; [congruence|reflexivity].
Qed.

(** ** The shape invariant *)

Lemma wf_new (nr nc : Z) : wf (new nr nc).
Proof. split; [constructor | intros k v []]. Qed.

Lemma wf_set_element (m : SparseMatrix) (r c v : Z) :
  wf m -> wf (set_element m r c v).
Proof.
  intros [Hnd Hb]. split; [apply NoDup_dict_set, Hnd|].
  intros k v' Hin. simpl in Hin. apply In_dict_set in Hin as [->|Hin]; simpl.
  - destruct (Z.geb_spec r (num_rows m)), (Z.geb_spec c (num_cols m)); lia.
  - destruct (Hb k v' Hin).
    destruct (Z.geb_spec r (num_rows m)), (Z.geb_spec c (num_cols m)); lia.
Qed.

Lemma wf_fold {X : Type} (step : SparseMatrix -> X -> SparseMatrix) (L : list X) :
  (forall m x, wf m -> wf (step m x)) ->
  forall m, wf m -> wf (fold_left step L m).
Proof.
  intros Hstep. induction L as [|x L IH]; simpl; auto.
Qed.

Lemma wf_add (A B C : SparseMatrix) : add A B = Ok C -> wf C.
Proof.
  unfold add. destruct (_ || _); [discriminate|]. intros H; injection H as <-.
  apply wf_fold; [intros m [[r c] v]; apply wf_set_element|].
  apply wf_fold; [intros m [[r c] v]; apply wf_set_element|].
  apply wf_new.
Qed.

Lemma wf_subtract (A B C : SparseMatrix) : subtract A B = Ok C -> wf C.
Proof.
  unfold subtract. destruct (_ || _); [discriminate|]. intros H; injection H as <-.
  apply wf_fold; [intros m [[r c] v]; apply wf_set_element|]. apply wf_new.
Qed.

Lemma wf_multiply (A B C : SparseMatrix) : multiply A B = Ok C -> wf C.
Proof.
  unfold multiply. destruct (negb _); [discriminate|]. intros H; injection H as <-.
  apply wf_fold; [|apply wf_new].
  intros m [[r1 c1] v1]. apply wf_fold.
  intros m' [[r2 c2] v2] Hm'. simpl. destruct (c1 =? r2); auto.
  apply wf_set_element, Hm'.
Qed.

Lemma wf_load_elements (lines : list string) (m m' : SparseMatrix) :
  wf m -> load_elements m lines = Ok m' -> wf m'.
Proof.
  revert m. induction lines as [|line lines IH]; simpl; intros m Hm.
  - intros H; injection H as <-; exact Hm.
  - destruct (_ || _); [discriminate|].
    destruct (parse_fields _) as [[[r c] v]|]; [|discriminate].
    apply IH, wf_set_element, Hm.
Qed.

Lemma wf_from_file (path content : string) (m : SparseMatrix) :
  from_file path content = Ok m -> wf m.
Proof.
  unfold from_file. destruct (_ <? 2)%nat; [discriminate|].
  destruct (parse_dim (nth 0 (_parse_matrix_file content) EmptyString)),
    (parse_dim (nth 1 (_parse_matrix_file content) EmptyString)); try discriminate.
  apply wf_load_elements, wf_new.
Qed.

Lemma reachable_wf (m : SparseMatrix) : reachable m -> wf m.
Proof.
  induction 1.
  - apply wf_new.
  - apply wf_set_element; assumption.
  - eapply wf_from_file; eassumption.
  - eapply wf_add; eassumption.
  - eapply wf_subtract; eassumption.
  - eapply wf_multiply; eassumption.
Qed.

(** [set_element] inside the shape leaves the shape alone. *)
Lemma set_element_shape (m : SparseMatrix) (r c v : Z) :
  r < num_rows m -> c < num_cols m ->
  num_rows (set_element m r c v) = num_rows m /\
  num_cols (set_element m r c v) = num_cols m.
Proof.
  intros Hr Hc. simpl.
  destruct (Z.geb_spec r (num_rows m)), (Z.geb_spec c (num_cols m)); split; lia.
Qed.

Lemma multiply_inner_shape (r1 c1 v1 : Z) (L : dict) (m : SparseMatrix) :
  r1 < num_rows m -> (forall k v, In (k, v) L -> snd k < num_cols m) ->
  num_rows (fold_left (multiply_inner_step r1 c1 v1) L m) = num_rows m /\
  num_cols (fold_left (multiply_inner_step r1 c1 v1) L m) = num_cols m.
Proof.
  revert m. induction L as [|[[r2 c2] v2] L IH]; simpl; intros m Hr HL; [auto|].
  destruct (c1 =? r2).
  - destruct (set_element_shape m r1 c2 (get_element m r1 c2 + v1 * v2)) as [E1 E2];
      [exact Hr | apply (HL (r2, c2) v2); auto |].
    rewrite <- E1, <- E2. apply IH; [lia|].
    intros k v Hin. rewrite E2. eapply HL; eauto.
  - apply IH; auto. intros k v Hin. eapply HL; eauto.
Qed.

Lemma multiply_outer_shape (B : SparseMatrix) (L : dict) (m : SparseMatrix) :
  (forall k v, In (k, v) L -> fst k < num_rows m) ->
  (forall k v, In (k, v) (elements B) -> snd k < num_cols m) ->
  num_rows (fold_left (multiply_outer_step B) L m) = num_rows m /\
  num_cols (fold_left (multiply_outer_step B) L m) = num_cols m.
Proof.
  revert m. induction L as [|[[r1 c1] v1] L IH]; simpl; intros m HL HB; [auto|].
  destruct (multiply_inner_shape r1 c1 v1 (elements B) m) as [E1 E2];
    [apply (HL (r1, c1) v1); auto | exact HB |].
  unfold multiply_outer_step at 2. rewrite <- E1, <- E2. apply IH.
  - intros k v Hin. rewrite E1. eapply HL; eauto.
  - intros k v Hin. rewrite E2. eapply HB; eauto.
Qed.

(** ** Strings: characters, [str], [int], [split] and [strip] *)

Lemma str_forall_app (p : ascii -> bool) (a b : string) :
  str_forall p (a ++ b) = str_forall p a && str_forall p b.
Proof.
  induction a as [|c a IH]; simpl; [reflexivity|]. rewrite IH. apply andb_assoc.
Qed.

Lemma str_forall_impl (p q : ascii -> bool) (s : string) :
  (forall c, p c = true -> q c = true) -> str_forall p s = true -> str_forall q s = true.
Proof.
  intros H. induction s as [|c s IH]; simpl; [auto|].
  rewrite !andb_true_iff. intros [Hc Hs]. auto.
Qed.

Lemma digit_char_spec (d : Z) :
  0 <= d < 10 -> is_digit (digit_char d) = true /\ digit_value (digit_char d) = d.
Proof.
  intros Hd.
  assert (d = 0 \/ d = 1 \/ d = 2 \/ d = 3 \/ d = 4 \/ d = 5 \/ d = 6 \/ d = 7
          \/ d = 8 \/ d = 9) as Hcases by lia.
  destruct Hcases as [->|[->|[->|[->|[->|[->|[->|[->|[->| ->]]]]]]]]];
    split; reflexivity.
Qed.

Lemma is_digit_not_space (c : ascii) : is_digit c = true -> is_space c = false.
Proof.
  unfold is_digit, is_space. rewrite andb_true_iff, !Nat.leb_le. intros [H1 H2].
  destruct (Nat.eqb_spec (nat_of_ascii c) 32); [lia|].
  destruct (Nat.leb_spec 9 (nat_of_ascii c)), (Nat.leb_spec (nat_of_ascii c) 13),
    (Nat.leb_spec 28 (nat_of_ascii c)), (Nat.leb_spec (nat_of_ascii c) 31),
    (Nat.eqb_spec (nat_of_ascii c) 133), (Nat.eqb_spec (nat_of_ascii c) 160);
    simpl; try reflexivity; lia.
Qed.

(** A digit is none of the other characters the text form uses. *)
Lemma is_digit_neq (c d : ascii) :
  is_digit c = true -> is_digit d = false -> Ascii.eqb c d = false.
Proof.
  intros Hc Hd. destruct (Ascii.eqb_spec c d) as [->|]; [congruence|reflexivity].
Qed.

Lemma digits_of_nonempty (f : nat) (n : Z) (c : ascii) (s : string) :
  digits_of f n (String c s) <> EmptyString.
Proof.
  revert n c s. induction f as [|f IH]; simpl; intros n c s; [discriminate|].
  destruct (n <? 10); [discriminate|apply IH].
Qed.

Lemma digits_of_digits (f : nat) (n : Z) (s : string) :
  0 <= n -> str_forall is_digit s = true -> str_forall is_digit (digits_of f n s) = true.
Proof.
  revert n s. induction f as [|f IH]; cbn [digits_of]; intros n s Hn Hs; [exact Hs|].
  destruct (Z.ltb_spec n 10).
  - cbn [str_forall]. rewrite (proj1 (digit_char_spec n ltac:(lia))). exact Hs.
  - apply IH; [apply Z.div_pos; lia|]. cbn [str_forall].
    rewrite (proj1 (digit_char_spec (n mod 10) ltac:(apply Z.mod_pos_bound; lia))).
    exact Hs.
Qed.

Lemma digits_of_S (f : nat) (n : Z) (acc : string) :
  digits_of (S f) n acc =
  if n <? 10 then String (digit_char n) acc
  else digits_of f (n / 10) (String (digit_char (n mod 10)) acc).
Proof. reflexivity. Qed.

Lemma digits_of_val (f : nat) (n : Z) (s : string) (a : Z) (ok : bool) :
  0 <= n < 10 ^ Z.of_nat (S f) ->
  exists p, 0 <= p /\
    digits_val a ok (digits_of (S f) n s) = digits_val (a * 10 ^ p + n) true s.
Proof.
  revert n s a ok. induction f as [|f IH]; intros n s a ok Hn.
  - exists 1. split; [lia|]. rewrite digits_of_S.
    destruct (Z.ltb_spec n 10); [|cbn in Hn; lia].
    cbn [digits_val]. destruct (digit_char_spec n ltac:(lia)) as [-> ->].
    rewrite Z.pow_1_r. reflexivity.
  - rewrite digits_of_S. destruct (Z.ltb_spec n 10).
    + exists 1. split; [lia|]. cbn [digits_val].
      destruct (digit_char_spec n ltac:(lia)) as [-> ->].
      rewrite Z.pow_1_r. reflexivity.
    + assert (Hd : 0 <= n / 10 < 10 ^ Z.of_nat (S f)).
      { split; [apply Z.div_pos; lia|]. apply Z.div_lt_upper_bound; [lia|].
        rewrite Nat2Z.inj_succ with (n := S f), Z.pow_succ_r in Hn by lia. lia. }
      destruct (IH (n / 10) (String (digit_char (n mod 10)) s) a ok Hd)
        as [p [Hp ->]].
      exists (Z.succ p). split; [lia|]. cbn [digits_val].
      destruct (digit_char_spec (n mod 10) ltac:(apply Z.mod_pos_bound; lia))
        as [-> ->].
      rewrite Z.pow_succ_r by lia. f_equal.
      rewrite (Z.div_mod n 10) at 3 by lia. ring.
Qed.

Lemma str_nat_fuel (n : Z) :
  0 <= n -> n < 10 ^ Z.of_nat (S (Z.to_nat (Z.log2 n))).
Proof.
  intros Hn. rewrite Nat2Z.inj_succ, Z2Nat.id by apply Z.log2_nonneg.
  apply Z.lt_le_trans with (2 ^ Z.succ (Z.log2 n)).
  - destruct (Z.eq_dec n 0) as [->|]; [reflexivity|].
    apply Z.log2_spec. lia.
  - apply Z.pow_le_mono_l. split; [lia|lia].
Qed.

Lemma str_nat_digits (n : Z) :
  0 <= n -> str_forall is_digit (str_nat n) = true /\ str_nat n <> EmptyString.
Proof.
  intros Hn. unfold str_nat. split.
  - apply digits_of_digits; [exact Hn|reflexivity].
  - cbn [digits_of]. destruct (n <? 10); [discriminate|apply digits_of_nonempty].
Qed.

Lemma digits_val_str_nat (n : Z) :
  0 <= n -> digits_val 0 false (str_nat n) = Some n.
Proof.
  intros Hn. unfold str_nat.
  destruct (digits_of_val (Z.to_nat (Z.log2 n)) n EmptyString 0 false)
    as [p [_ ->]]; [split; [exact Hn|apply str_nat_fuel, Hn]|].
  reflexivity.
Qed.

Lemma lstrip_id (s : string) : str_forall not_space s = true -> lstrip s = s.
Proof.
  destruct s as [|c s]; cbn [str_forall lstrip]; [reflexivity|].
  unfold not_space. destruct (is_space c); [discriminate|reflexivity].
Qed.

Lemma rstrip_id (s : string) : str_forall not_space s = true -> rstrip s = s.
Proof.
  induction s as [|c s IH]; cbn [str_forall rstrip]; [reflexivity|].
  rewrite andb_true_iff. intros [Hc Hs]. rewrite IH by exact Hs.
  unfold not_space in Hc. destruct s; [|reflexivity].
  destruct (is_space c); [discriminate|reflexivity].
Qed.

Lemma strip_id (s : string) : str_forall not_space s = true -> strip s = s.
Proof. intros H. unfold strip. rewrite lstrip_id, rstrip_id; auto. Qed.

Lemma rstrip_app (s t : string) :
  rstrip t <> EmptyString -> rstrip (s ++ t)%string = (s ++ rstrip t)%string.
Proof.
  intros Ht. induction s as [|c s IH]; cbn [append rstrip]; [reflexivity|].
  rewrite IH. destruct (s ++ rstrip t)%string eqn:E; [|reflexivity].
  destruct s; cbn in E; [congruence|discriminate].
Qed.

Lemma digit_chars (p : ascii -> bool) (z : Z) :
  (forall c, is_digit c = true -> p c = true) -> p "-"%char = true ->
  str_forall p (str_Z z) = true.
Proof.
  intros Hd Hm. unfold str_Z. destruct (Z.ltb_spec z 0).
  - cbn [str_forall]. rewrite Hm. simpl.
    apply (str_forall_impl is_digit); [exact Hd|].
    apply (proj1 (str_nat_digits (- z) ltac:(lia))).
  - apply (str_forall_impl is_digit); [exact Hd|].
    apply (proj1 (str_nat_digits z ltac:(lia))).
Qed.

Lemma str_Z_not_space (z : Z) : str_forall not_space (str_Z z) = true.
Proof.
  apply digit_chars; [|reflexivity].
  intros c Hc. unfold not_space. rewrite is_digit_not_space by exact Hc. reflexivity.
Qed.

(** [int(str(z)) == z] *)
Lemma py_int_str_Z (z : Z) : py_int (str_Z z) = Some z.
Proof.
  unfold py_int. rewrite strip_id by apply str_Z_not_space.
  unfold str_Z. destruct (Z.ltb_spec z 0).
  - cbn [Ascii.eqb]. rewrite digits_val_str_nat by lia. simpl. f_equal. lia.
  - destruct (str_nat_digits z ltac:(lia)) as [Hd Hne].
    pose proof (digits_val_str_nat z ltac:(lia)) as Hv.
    destruct (str_nat z) as [|c r]; [congruence|].
    cbn [str_forall] in Hd. apply andb_true_iff in Hd as [Hc _].
    rewrite !is_digit_neq by (exact Hc || reflexivity). exact Hv.
Qed.

(** *** [split] *)

Lemma split_on_single (sep : ascii) (s : string) :
  no_char sep s = true -> split_on sep s = [s].
Proof.
  unfold no_char. induction s as [|c s IH]; cbn [str_forall split_on]; [reflexivity|].
  rewrite andb_true_iff. intros [Hc Hs]. rewrite IH by exact Hs.
  destruct (Ascii.eqb c sep); [discriminate|reflexivity].
Qed.

Lemma split_on_app (sep : ascii) (a b : string) :
  no_char sep a = true -> split_on sep (a ++ String sep b)%string = a :: split_on sep b.
Proof.
  unfold no_char. induction a as [|c a IH]; cbn [str_forall split_on append].
  - rewrite Ascii.eqb_refl. reflexivity.
  - rewrite andb_true_iff. intros [Hc Ha]. rewrite IH by exact Ha.
    destruct (Ascii.eqb c sep); [discriminate|reflexivity].
Qed.

Lemma str_Z_no_char (sep : ascii) (z : Z) :
  is_digit sep = false -> sep <> "-"%char -> no_char sep (str_Z z) = true.
Proof.
  intros Hd Hm. apply digit_chars.
  - intros c Hc. rewrite is_digit_neq by assumption. reflexivity.
  - destruct (Ascii.eqb_spec "-"%char sep); [congruence|reflexivity].
Qed.

(** *** The lines of the text form *)

Lemma str_append_assoc (a b c : string) :
  ((a ++ b) ++ c)%string = (a ++ (b ++ c))%string.
Proof. induction a as [|x a IH]; cbn [append]; [reflexivity|]. rewrite IH. reflexivity. Qed.

Lemma str_length_app (a b : string) :
  String.length (a ++ b) = (String.length a + String.length b)%nat.
Proof. induction a as [|x a IH]; cbn [append String.length]; [reflexivity|]. rewrite IH. reflexivity. Qed.

Lemma substring_prefix (a b : string) : substring 0 (String.length a) (a ++ b) = a.
Proof. induction a as [|x a IH]; cbn; [destruct b; reflexivity|]. rewrite IH. reflexivity. Qed.

Lemma endswith_snoc (c : ascii) (s : string) :
  endswith c (s ++ String c EmptyString) = true.
Proof.
  induction s as [|a s IH]; cbn [append].
  - cbn. apply Ascii.eqb_refl.
  - destruct (s ++ String c EmptyString)%string eqn:E.
    + destruct s; discriminate.
    + exact IH.
Qed.

Lemma lstrip_cons (a : ascii) (s : string) :
  is_space a = false -> lstrip (String a s) = String a s.
Proof. intros H. cbn [lstrip]. rewrite H. reflexivity. Qed.

Lemma strip_space (s : string) : strip (String " " s) = strip s.
Proof. reflexivity. Qed.

Lemma entry_line_eq (r c v : Z) :
  entry_line ((r, c), v) = String "(" (entry_body r c v ++ String ")" EmptyString).
Proof.
  unfold entry_line, entry_body. cbn [append].
  repeat (rewrite str_append_assoc; cbn [append]). reflexivity.
Qed.

Lemma strip_parens_entry (r c v : Z) :
  strip_parens (entry_line ((r, c), v)) = entry_body r c v.
Proof.
  rewrite entry_line_eq. unfold strip_parens. cbn [String.length].
  rewrite str_length_app. cbn [String.length].
  replace (S (String.length (entry_body r c v) + 1) - 2)%nat
    with (String.length (entry_body r c v)) by lia.
  cbn [substring]. apply substring_prefix.
Qed.

Lemma parse_entry_fields (r c v : Z) :
  parse_fields (split_on "," (entry_body r c v)) = Some (r, c, v).
Proof.
  unfold entry_body.
  rewrite split_on_app by (apply str_Z_no_char; [reflexivity|discriminate]).
  rewrite split_on_app.
  2:{ change (no_char "," (String " " (str_Z c)))
        with (negb (Ascii.eqb " " ",") && no_char "," (str_Z c)).
      rewrite str_Z_no_char; [reflexivity|reflexivity|discriminate]. }
  rewrite (split_on_single "," (String " " (str_Z v))).
  2:{ change (no_char "," (String " " (str_Z v)))
        with (negb (Ascii.eqb " " ",") && no_char "," (str_Z v)).
      rewrite str_Z_no_char; [reflexivity|reflexivity|discriminate]. }
  unfold parse_fields. cbn [nth_error]. rewrite !strip_space.
  rewrite !strip_id by apply str_Z_not_space. rewrite !py_int_str_Z. reflexivity.
Qed.

Lemma strip_entry_line (e : key * Z) : strip (entry_line e) = entry_line e.
Proof.
  destruct e as [[r c] v]. rewrite entry_line_eq. unfold strip.
  rewrite lstrip_cons by reflexivity.
  change (String "(" (entry_body r c v ++ String ")" EmptyString))
    with (String "(" (entry_body r c v) ++ String ")" EmptyString)%string.
  rewrite rstrip_app by discriminate. reflexivity.
Qed.

Lemma str_Z_no_newline (z : Z) :
  str_forall (fun c => negb (Ascii.eqb c newline)) (str_Z z) = true.
Proof. apply str_Z_no_char; [reflexivity|discriminate]. Qed.

Lemma entry_line_no_newline (e : key * Z) : no_char newline (entry_line e) = true.
Proof.
  destruct e as [[r c] v]. unfold entry_line, no_char.
  rewrite !str_forall_app, !str_Z_no_newline. reflexivity.
Qed.

Lemma header_no_newline (name : string) (z : Z) :
  no_char newline name = true -> no_char newline (name ++ String "=" (str_Z z)) = true.
Proof.
  unfold no_char. intros H. rewrite str_forall_app, H. cbn [str_forall].
  rewrite str_Z_no_newline. reflexivity.
Qed.

Lemma strip_header (name : string) (z : Z) :
  str_forall not_space name = true ->
  strip (name ++ String "=" (str_Z z)) = (name ++ String "=" (str_Z z))%string.
Proof.
  intros H. apply strip_id. rewrite str_forall_app, H. cbn [str_forall].
  rewrite str_Z_not_space. reflexivity.
Qed.

Lemma parse_dim_header (name : string) (z : Z) :
  no_char "=" name = true -> parse_dim (name ++ String "=" (str_Z z)) = Some z.
Proof.
  intros H. unfold parse_dim. rewrite split_on_app by exact H.
  rewrite split_on_single by (apply str_Z_no_char; [reflexivity|discriminate]).
  apply py_int_str_Z.
Qed.

Lemma concat_cons2 (sep x y : string) (rest : list string) :
  String.concat sep (x :: y :: rest) = (x ++ sep ++ String.concat sep (y :: rest))%string.
Proof. reflexivity. Qed.

Lemma split_concat (L : list string) :
  L <> [] -> Forall (fun l => no_char newline l = true) L ->
  split_on newline (String.concat (String newline EmptyString) L) = L.
Proof.
  induction L as [|x [|y rest] IH]; intros Hne HL; [congruence| |].
  - inversion HL; subst. apply split_on_single. assumption.
  - inversion HL; subst. rewrite concat_cons2. cbn [append].
    rewrite split_on_app by assumption. rewrite IH by (discriminate || assumption).
    reflexivity.
Qed.

Lemma filter_strip_lines (L : list string) :
  Forall (fun l => strip l = l /\ l <> EmptyString) L ->
  filter (fun line => negb (String.eqb (strip line) EmptyString)) (map strip L) = L.
Proof.
  induction L as [|x L IH]; intros HL; [reflexivity|].
  inversion HL as [|? ? [Hs Hx] HL']; subst. cbn [map filter].
  rewrite !Hs. destruct (String.eqb_spec x EmptyString) as [|_]; [congruence|].
  cbn [negb]. rewrite IH by exact HL'. reflexivity.
Qed.

Lemma parse_matrix_file_concat (L : list string) :
  L <> [] ->
  Forall (fun l => no_char newline l = true /\ strip l = l /\ l <> EmptyString) L ->
  _parse_matrix_file (String.concat (String newline EmptyString) L) = L.
Proof.
  intros Hne HL. unfold _parse_matrix_file. rewrite split_concat.
  - apply filter_strip_lines. eapply Forall_impl; [|exact HL].
    intros l [_ H]. exact H.
  - exact Hne.
  - eapply Forall_impl; [|exact HL]. intros l [H _]. exact H.
Qed.

Lemma dict_set_absent (d : dict) (k : key) (v : Z) :
  ~ In k (keys d) -> dict_set d k v = d ++ [(k, v)].
Proof.
  induction d as [|[k0 v0] d IH]; cbn [dict_set keys map]; intros Hn; [reflexivity|].
  destruct (key_eqb_spec k0 k) as [->|]; [exfalso; apply Hn; left; reflexivity|].
  rewrite IH by (intros H; apply Hn; right; exact H). reflexivity.
Qed.

Lemma entry_line_parens (e : key * Z) :
  negb (startswith "(" (entry_line e)) || negb (endswith ")" (entry_line e)) = false.
Proof.
  destruct e as [[r c] v]. rewrite entry_line_eq. cbn [startswith].
  pose proof (endswith_snoc ")" (String "(" (entry_body r c v))) as H.
  cbn [append] in H. rewrite H. reflexivity.
Qed.

Lemma parse_entry_line (e : key * Z) :
  parse_fields (split_on "," (strip_parens (entry_line e))) =
  Some (fst (fst e), snd (fst e), snd e).
Proof.
  destruct e as [[r c] v]. rewrite strip_parens_entry. apply parse_entry_fields.
Qed.

Lemma load_entry_lines (L : dict) (m : SparseMatrix) :
  NoDup (keys (elements m ++ L)) ->
  exists m', load_elements m (map entry_line L) = Ok m' /\
             elements m' = elements m ++ L.
Proof.
  revert m. induction L as [|e L IH]; intros m Hnd.
  - exists m. rewrite app_nil_r. split; reflexivity.
  - cbn [map load_elements]. rewrite entry_line_parens, parse_entry_line.
    destruct e as [[r c] v]. cbn [fst snd].
    unfold keys in Hnd. rewrite map_app in Hnd. cbn [map fst] in Hnd.
    pose proof (NoDup_remove_2 _ _ _ Hnd) as Hnot.
    assert (Hset : elements (set_element m r c v) = elements m ++ [((r, c), v)]).
    { cbn [elements set_element]. apply dict_set_absent.
      intros H. apply Hnot. apply in_or_app. left. exact H. }
    destruct (IH (set_element m r c v)) as [m' [Hl He']].
    + rewrite Hset, <- app_assoc. unfold keys. rewrite map_app. exact Hnd.
    + exists m'. split; [exact Hl|]. rewrite He', Hset, <- app_assoc. reflexivity.
Qed.

Lemma header_line_facts (name : string) (z : Z) :
  no_char newline name = true -> str_forall not_space name = true ->
  no_char "=" name = true ->
  (no_char newline (name ++ String "=" (str_Z z)) = true /\
   strip (name ++ String "=" (str_Z z)) = (name ++ String "=" (str_Z z))%string /\
   (name ++ String "=" (str_Z z))%string <> EmptyString) /\
  parse_dim (name ++ String "=" (str_Z z)) = Some z.
Proof.
  intros H1 H2 H3. split; [split; [|split]|].
  - apply header_no_newline, H1.
  - apply strip_header, H2.
  - destruct name; discriminate.
  - apply parse_dim_header, H3.
Qed.

Lemma entry_line_facts (e : key * Z) :
  no_char newline (entry_line e) = true /\ strip (entry_line e) = entry_line e /\
  entry_line e <> EmptyString.
Proof.
  split; [apply entry_line_no_newline|split; [apply strip_entry_line|]].
  destruct e as [[r c] v]. rewrite entry_line_eq. discriminate.
Qed.

(** ** Malformed element lines *)

Lemma parse_fields_None (fields : list string) :
  (List.length fields < 3)%nat \/
  (exists f, In f (firstn 3 fields) /\ py_int (strip f) = None) ->
  parse_fields fields = None.
Proof.
  destruct fields as [|f0 [|f1 [|f2 rest]]]; cbn [List.length firstn In];
    intros H; try reflexivity.
  destruct H as [H|[f [Hin Hf]]]; [lia|].
  unfold parse_fields. cbn [nth_error].
  destruct Hin as [<-|[<-|[<-|[]]]]; rewrite Hf;
    [reflexivity|destruct (py_int (strip f0)); reflexivity|].
  destruct (py_int (strip f0)), (py_int (strip f1)); reflexivity.
Qed.

Lemma load_elements_malformed (lines : list string) (m : SparseMatrix) (l : string) :
  In l lines -> malformed_element_line l -> exists e, load_elements m lines = Raise e.
Proof.
  revert m. induction lines as [|line lines IH]; intros m Hin Hbad; [destruct Hin|].
  cbn [load_elements].
  destruct (negb (startswith "(" line) || negb (endswith ")" line)) eqn:Hp;
    [eexists; reflexivity|].
  destruct Hin as [<-|Hin].
  - destruct Hbad as [Hb|Hb]; [congruence|].
    rewrite parse_fields_None by exact Hb. eexists; reflexivity.
  - destruct (parse_fields _) as [[[r c] v]|]; [|eexists; reflexivity].
    apply IH; assumption.
Qed.

Lemma multiply_get (A B C : SparseMatrix) (i j : Z) :
  NoDup (keys (elements B)) -> multiply A B = Ok C ->
  get_element C i j =
  sumZ (fun '((r1, c1), v1) => if r1 =? i then v1 * dget (elements B) (c1, j) else 0)
       (elements A).
Proof.
  intros NB. unfold multiply. destruct (negb _); [discriminate|].
  intros H; injection H as <-. rewrite multiply_outer_get. simpl.
  apply sumZ_ext_in. intros [[r1 c1] v1] _. apply multiply_inner_sum, NB.
Qed.

(** ** Claims *)

(** C1: when the shapes agree, [subtract(A, B)] stores exactly the keys of
    [B], with [A.get_element(r, c) - B[r, c]] at each of them; entries of
    [A] outside [B]'s keys are absent from the result. *)
Theorem subtract_keys_of_other (A B : SparseMatrix) :
  NoDup (keys (elements B)) ->
  num_rows A = num_rows B -> num_cols A = num_cols B ->
  exists C, subtract A B = Ok C /\
    forall r c,
      dict_lookup (elements C) (r, c) =
      match dict_lookup (elements B) (r, c) with
      | Some b => Some (get_element A r c - b)
      | None => None
      end.
Proof.
  intros NB Hr Hc. unfold subtract. rewrite Hr, Hc, !Z.eqb_refl. simpl.
  eexists; split; [reflexivity|]. intros r c.
  rewrite subtract_lookup by exact NB. reflexivity.
Qed.

(** C2: when [A.num_cols == B.num_rows], [multiply(A, B)] has shape
    [(A.num_rows, B.num_cols)] and its entry at [(i, j)] is the sum over
    all [k] of [A[i, k] * B[k, j]]: that term vanishes outside a finite
    set, and the sum over any duplicate-free finite set covering its
    support is the entry. *)
Theorem multiply_correct (A B : SparseMatrix) :
  wf A -> wf B -> num_cols A = num_rows B ->
  exists C, multiply A B = Ok C /\
    num_rows C = num_rows A /\ num_cols C = num_cols B /\
    forall i j,
      (exists K, NoDup K /\
         forall k, ~ In k K -> get_element A i k * get_element B k j = 0) /\
      (forall K, NoDup K ->
         (forall k, ~ In k K -> get_element A i k * get_element B k j = 0) ->
         get_element C i j = sumZ (fun k => get_element A i k * get_element B k j) K).
Proof.
  intros [NA BA] [NB BB] Hdim.
  assert (Hm : multiply A B =
               Ok (fold_left (multiply_outer_step B) (elements A)
                     (new (num_rows A) (num_cols B)))).
  { unfold multiply. rewrite Hdim, Z.eqb_refl. reflexivity. }
  eexists; split; [exact Hm|].
  destruct (multiply_outer_shape B (elements A) (new (num_rows A) (num_cols B)))
    as [E1 E2].
  { intros k v Hin. apply (BA k v Hin). }
  { intros k v Hin. apply (BB k v Hin). }
  split; [exact E1|]. split; [exact E2|].
  intros i j.
  assert (Hsupp : forall k, get_element A i k * get_element B k j <> 0 ->
                            In k (row_cols (elements A) i)).
  { intros k Hk. apply row_cols_support. intros H0.
    apply Hk. rewrite get_element_dget, H0. reflexivity. }
  split.
  - exists (row_cols (elements A) i). split; [apply row_cols_NoDup, NA|].
    intros k Hk. destruct (Z.eq_dec (get_element A i k * get_element B k j) 0)
      as [E|E]; [exact E|]. exfalso. apply Hk, Hsupp, E.
  - intros K NK HK. rewrite (multiply_get A B _ i j NB Hm).
    rewrite (multiply_row_sum i (fun k => dget (elements B) (k, j)) _ NA).
    apply sumZ_support.
    + apply row_cols_NoDup, NA.
    + exact NK.
    + exact Hsupp.
    + intros k Hk. destruct (in_dec Z.eq_dec k K) as [Hin|Hin]; [exact Hin|].
      exfalso. apply Hk, HK, Hin.
Qed.

(** C3: when the shapes agree, [add(A, B)] and [add(B, A)] store the same
    mapping: the union of the keys, summed where both operands store a
    value and the single value elsewhere. *)
Theorem add_commutative (A B : SparseMatrix) :
  NoDup (keys (elements A)) -> NoDup (keys (elements B)) ->
  num_rows A = num_rows B -> num_cols A = num_cols B ->
  exists C D, add A B = Ok C /\ add B A = Ok D /\
    forall k,
      dict_lookup (elements C) k = dict_lookup (elements D) k /\
      dict_lookup (elements C) k =
      match dict_lookup (elements A) k, dict_lookup (elements B) k with
      | Some a, Some b => Some (a + b)
      | Some a, None => Some a
      | None, Some b => Some b
      | None, None => None
      end.
Proof.
  intros NA NB Hr Hc.
  destruct (add_ok A B Hr Hc) as [C HC].
  destruct (add_ok B A (eq_sym Hr) (eq_sym Hc)) as [D HD].
  exists C, D. split; [exact HC|]. split; [exact HD|]. intros k.
  rewrite (add_lookup A B C k NA NB HC), (add_lookup B A D k NB NA HD).
  unfold add_entry.
  destruct (dict_lookup (elements A) k), (dict_lookup (elements B) k);
    split; try reflexivity; f_equal; lia.
Qed.

(** C4: on the 2x2 matrix [A] with entries (0,0,1), (0,1,2), (1,0,3),
    (1,1,4) and the 2x2 identity [B]: [add(A, B)] stores exactly
    (0,0,2), (0,1,2), (1,0,3), (1,1,5); [multiply(A, B)] stores exactly
    the entries of [A]; [subtract(A, B)] stores exactly (0,0,0), (1,1,3). *)
Theorem scenario_2x2 :
  add matrix_A matrix_B =
    Ok (mkSparseMatrix [((0, 0), 2); ((0, 1), 2); ((1, 0), 3); ((1, 1), 5)] 2 2) /\
  multiply matrix_A matrix_B = Ok (mkSparseMatrix (elements matrix_A) 2 2) /\
  subtract matrix_A matrix_B =
    Ok (mkSparseMatrix [((0, 0), 0); ((1, 1), 3)] 2 2).
Proof. split; [|split]; reflexivity. Qed.

Lemma load_elements_ok (lines : list string) (m m' : SparseMatrix) :
  load_elements m lines = Ok m' <->
  exists ops, Forall (fun line => parenthesized line = true) lines /\
    map parse_element_line lines = map Some ops /\
    m' = set_all m ops.
Proof.
  revert m. induction lines as [|line rest IH]; intros m; cbn [load_elements].
  - split.
    + intros H; injection H as <-. exists []. repeat split; constructor.
    + intros [ops [_ [Hm ->]]]. destruct ops; [reflexivity|discriminate].
  - unfold parenthesized at 1. destruct (startswith "(" line) eqn:E1, (endswith ")" line) eqn:E2;
      cbn [negb orb andb].
    2-4: split; [discriminate|intros [ops [HF _]]; inversion HF as [|? ? Hl]; subst;
          unfold parenthesized in Hl; rewrite E1, E2 in Hl; discriminate].
    destruct (parse_fields (split_on "," (strip_parens line))) as [[[r c] v]|] eqn:Ep.
    + rewrite IH. split.
      * intros [ops [HF [Hm ->]]]. exists ((r, c, v) :: ops). split; [|split].
        -- constructor; [unfold parenthesized; rewrite E1, E2; reflexivity|exact HF].
        -- cbn [map]. unfold parse_element_line at 1. rewrite Ep, Hm. reflexivity.
        -- reflexivity.
      * intros [ops [HF [Hm ->]]]. destruct ops as [|op ops]; [discriminate|].
        cbn [map] in Hm. unfold parse_element_line at 1 in Hm. rewrite Ep in Hm.
        injection Hm as <- Hm. inversion HF; subst.
        exists ops. auto.
    + split; [discriminate|]. intros [ops [_ [Hm _]]]. destruct ops; [discriminate|].
      cbn [map] in Hm. unfold parse_element_line at 1 in Hm. rewrite Ep in Hm. discriminate.
Qed.

Lemma set_all_cons (m : SparseMatrix) (r c v : Z) (ops : list (Z * Z * Z)) :
  set_all m ((r, c, v) :: ops) = set_all (set_element m r c v) ops.
Proof. reflexivity. Qed.

(** The shape after a sequence of [set_element] calls: it only grows,
    every written index lies inside it, and a dimension that grew is one
    more than an index written. *)
Lemma set_all_grow (m : SparseMatrix) (ops : list (Z * Z * Z)) :
  num_rows m <= num_rows (set_all m ops) /\
  num_cols m <= num_cols (set_all m ops) /\
  (forall r c v, In (r, c, v) ops ->
     r < num_rows (set_all m ops) /\ c < num_cols (set_all m ops)) /\
  (num_rows m < num_rows (set_all m ops) ->
     exists c v, In (num_rows (set_all m ops) - 1, c, v) ops) /\
  (num_cols m < num_cols (set_all m ops) ->
     exists r v, In (r, num_cols (set_all m ops) - 1, v) ops).
Proof.
  revert m. induction ops as [|[[r c] v] ops IH]; intros m.
  - cbn [set_all fold_left]. repeat split; try lia; intros; contradiction.
  - rewrite set_all_cons.
    destruct (IH (set_element m r c v)) as [Hr [Hc [Hb [Gr Gc]]]].
    set (m' := set_all (set_element m r c v) ops) in *.
    unfold set_element in Hr, Hc, Gr, Gc; cbn [num_rows num_cols] in Hr, Hc, Gr, Gc.
    destruct (Z.geb_spec r (num_rows m)) as [Er|Er];
      destruct (Z.geb_spec c (num_cols m)) as [Ec|Ec].
    all: split; [lia|]; split; [lia|]; split;
      [intros r' c' v' [He|He];
         [injection He as <- <- <-; lia|exact (Hb r' c' v' He)]|].
    all: split; intros Hlt.
    all: first
      [ destruct (Z.lt_ge_cases (r + 1) (num_rows m')) as [Hy|Hy];
        [ destruct (Gr ltac:(lia)) as [c' [v' H']]; exists c', v'; right; exact H'
        | exists c, v; left; do 2 f_equal; lia ]
      | destruct (Z.lt_ge_cases (c + 1) (num_cols m')) as [Hy|Hy];
        [ destruct (Gc ltac:(lia)) as [r' [v' H']]; exists r', v'; right; exact H'
        | exists r, v; left; do 2 f_equal; lia ]
      | destruct (Gr ltac:(lia)) as [c' [v' H']]; exists c', v'; right; exact H'
      | destruct (Gc ltac:(lia)) as [r' [v' H']]; exists r', v'; right; exact H' ].
Qed.

(** [s.split(sep)] of a concatenation at a separator. *)
Lemma split_on_app_sep (sep : ascii) (a b : string) :
  split_on sep (a ++ String sep b)%string = split_on sep a ++ split_on sep b.
Proof.
  induction a as [|c a IH]; cbn [split_on append].
  - rewrite Ascii.eqb_refl. reflexivity.
  - rewrite IH. destruct (Ascii.eqb c sep); [reflexivity|].
    destruct (split_on sep a) as [|h t] eqn:E; [|reflexivity].
    destruct a as [|x a']; cbn [split_on] in E; [discriminate|].
    destruct (Ascii.eqb x sep); [discriminate|]. destruct (split_on sep a'); discriminate.
Qed.

(** Only [elements[0]], [elements[1]] and [elements[2]] are read. *)
Lemma parse_fields_firstn (fields : list string) :
  parse_fields fields = parse_fields (firstn 3 fields).
Proof. destruct fields as [|f0 [|f1 [|f2 t]]]; reflexivity. Qed.

Lemma parse_fields_app (fields extra : list string) :
  (3 <= List.length fields)%nat ->
  parse_fields (fields ++ extra) = parse_fields fields.
Proof.
  intros H. rewrite (parse_fields_firstn (fields ++ extra)), firstn_app.
  replace (3 - List.length fields)%nat with 0%nat by lia.
  rewrite firstn_O, app_nil_r. symmetry. apply parse_fields_firstn.
Qed.

Lemma strip_parens_wrap (body : string) :
  strip_parens (String "(" (body ++ String ")" EmptyString)) = body.
Proof.
  unfold strip_parens. cbn [String.length].
  rewrite str_length_app. cbn [String.length].
  replace (S (String.length body + 1) - 2)%nat with (String.length body) by lia.
  cbn [substring]. apply substring_prefix.
Qed.

Lemma parenthesized_wrap (body : string) :
  startswith "(" (String "(" (body ++ String ")" EmptyString)) = true /\
  endswith ")" (String "(" (body ++ String ")" EmptyString)) = true.
Proof.
  split; [reflexivity|].
  exact (endswith_snoc ")" (String "(" body)).
Qed.

(** In the loop of [from_file], text appended after the third field of a
    parenthesized line does not change whether a matrix is returned, nor
    which one. *)
Lemma load_elements_extra_fields (P L2 : list string) (body s : string)
  (m m' : SparseMatrix) :
  (3 <= List.length (split_on "," body))%nat ->
  (load_elements m (P ++ String "(" ((body ++ String "," s) ++ String ")" EmptyString) :: L2)
     = Ok m' <->
   load_elements m (P ++ String "(" (body ++ String ")" EmptyString) :: L2) = Ok m').
Proof.
  intros H3. revert m. induction P as [|line P IH]; intros m; cbn [app load_elements].
  - destruct (parenthesized_wrap body) as [E1 E2].
    destruct (parenthesized_wrap (body ++ String "," s)) as [E1' E2'].
    rewrite E1, E2, E1', E2'. cbn [negb orb].
    rewrite !strip_parens_wrap, split_on_app_sep, parse_fields_app by exact H3.
    destruct (parse_fields (split_on "," body)) as [[[r c] v]|];
      [reflexivity|split; discriminate].
  - destruct (negb (startswith "(" line) || negb (endswith ")" line)); [reflexivity|].
    destruct (parse_fields (split_on "," (strip_parens line))) as [[[r c] v]|];
      [apply IH|reflexivity].
Qed.

Lemma set_all_frame (m : SparseMatrix) (ops : list (Z * Z * Z)) (r c : Z) :
  ~ In (r, c) (map (fun '(r', c', _) => (r', c')) ops) ->
  get_element (set_all m ops) r c = get_element m r c.
Proof.
  unfold set_all. revert m.
  induction ops as [|[[r' c'] v'] ops IH]; simpl; intros m Hn; [reflexivity|].
  rewrite IH by tauto. rewrite get_element_set.
  destruct (key_eqb_spec (r', c') (r, c)); [tauto|reflexivity].
Qed.

(** C5: [get_element] after [set_element] at the same place returns the
    value set, which is stored even when it is 0; a coordinate that no
    [set_element] call has written reads 0; and [get_element] does not
    look at [num_rows] and [num_cols] at all. *)
Theorem get_set_element :
  (forall m r c v,
     get_element (set_element m r c v) r c = v /\
     dict_lookup (elements (set_element m r c v)) (r, c) = Some v) /\
  (forall nr nc ops r c,
     ~ In (r, c) (map (fun '(r', c', _) => (r', c')) ops) ->
     get_element (set_all (new nr nc) ops) r c = 0) /\
  (forall d nr nc nr' nc' r c,
     get_element (mkSparseMatrix d nr nc) r c = get_element (mkSparseMatrix d nr' nc') r c).
Proof.
  split; [|split].
  - intros m r c v. rewrite get_element_set, key_eqb_refl. split; [reflexivity|].
    simpl. rewrite dict_lookup_set, key_eqb_refl. reflexivity.
  - intros nr nc ops r c Hn. rewrite set_all_frame by exact Hn. reflexivity.
  - reflexivity.
Qed.

(** C6: [set_element] grows [num_rows] to [row + 1] when [row >= num_rows]
    and keeps it otherwise, the same for columns, and stores the value at
    [(row, col)] over any earlier one.  So [from_file] grows the declared
    shape when a line's indices exceed it: for every file it loads, the
    header's dimensions only grow, every element line's indices lie inside
    the result's shape, and a dimension larger than the header's is one
    more than an index of some element line; the file ["rows=1"],
    ["cols=1"], ["(5, 7, 1)"] gives a 6x8 matrix. *)
Theorem set_element_grows :
  (forall m r c v,
     num_rows (set_element m r c v) =
       (if r >=? num_rows m then r + 1 else num_rows m) /\
     num_cols (set_element m r c v) =
       (if c >=? num_cols m then c + 1 else num_cols m) /\
     forall k, dict_lookup (elements (set_element m r c v)) k =
               if key_eqb (r, c) k then Some v else dict_lookup (elements m) k) /\
  (exists m,
    from_file "m.txt" ("rows=1" ++ nl ++ "cols=1" ++ nl ++ "(5, 7, 1)")%string = Ok m /\
    num_rows m = 6 /\ num_cols m = 8) /\
  (forall path content m,
     from_file path content = Ok m ->
     exists nr nc ops,
       parse_dim (nth 0 (_parse_matrix_file content) EmptyString) = Some nr /\
       parse_dim (nth 1 (_parse_matrix_file content) EmptyString) = Some nc /\
       map parse_element_line (skipn 2 (_parse_matrix_file content)) = map Some ops /\
       nr <= num_rows m /\ nc <= num_cols m /\
       (forall r c v, In (r, c, v) ops -> r < num_rows m /\ c < num_cols m) /\
       (nr < num_rows m -> exists c v, In (num_rows m - 1, c, v) ops) /\
       (nc < num_cols m -> exists r v, In (r, num_cols m - 1, v) ops)).
Proof.
  split; [|split].
  - intros m r c v. split; [reflexivity|]. split; [reflexivity|].
    intros k. apply dict_lookup_set.
  - eexists. split; [reflexivity|]. split; reflexivity.
  - intros path content m. unfold from_file.
    destruct (List.length (_parse_matrix_file content) <? 2)%nat; [discriminate|].
    destruct (parse_dim (nth 0 (_parse_matrix_file content) EmptyString)) as [nr|],
      (parse_dim (nth 1 (_parse_matrix_file content) EmptyString)) as [nc|];
      try discriminate.
    intros H. apply load_elements_ok in H as [ops [_ [Hm ->]]].
    exists nr, nc, ops. split; [reflexivity|]. split; [reflexivity|]. split; [exact Hm|].
    exact (set_all_grow (new nr nc) ops).
Qed.

(** C7: [add] and [subtract] raise their dimension error exactly when the
    shapes differ, [multiply] exactly when [self.num_cols != other.num_rows];
    otherwise they return a matrix. *)
Theorem dimension_mismatch (A B : SparseMatrix) :
  ((num_rows A <> num_rows B \/ num_cols A <> num_cols B) ->
     add A B = Raise (ValueError "Cannot add matrices of different dimensions.") /\
     subtract A B = Raise (ValueError "Cannot subtract matrices of different dimensions.")) /\
  (num_rows A = num_rows B -> num_cols A = num_cols B ->
     (exists C, add A B = Ok C) /\ (exists C, subtract A B = Ok C)) /\
  (num_cols A <> num_rows B ->
     multiply A B = Raise (ValueError "Cannot multiply: column count of the first matrix must equal row count of the second.")) /\
  (num_cols A = num_rows B -> exists C, multiply A B = Ok C).
Proof.
  unfold add, subtract, multiply.
  split; [|split; [|split]].
  - intros H. destruct (Z.eqb_spec (num_rows A) (num_rows B)),
      (Z.eqb_spec (num_cols A) (num_cols B)); simpl; try tauto; split; reflexivity.
  - intros -> ->. rewrite !Z.eqb_refl. simpl. split; eexists; reflexivity.
  - intros H. destruct (Z.eqb_spec (num_cols A) (num_rows B)); [tauto|reflexivity].
  - intros ->. rewrite Z.eqb_refl. eexists; reflexivity.
Qed.

(** C10: every matrix the class produces keeps each stored coordinate
    [(r, c)] below its shape: [r < num_rows] and [c < num_cols]. *)
Theorem reachable_in_bounds (m : SparseMatrix) :
  reachable m -> in_bounds m.
Proof. intros H. apply (reachable_wf m H). Qed.


(** C8 (as amended): after the two header lines, a line that is not
    wrapped in parentheses, or whose text inside them has fewer than three
    comma-separated fields or a field among the first three that [int]
    rejects, makes [from_file] raise, so that no matrix is returned; the
    line ["(1,2)"] is such a line.  Fields after the third are ignored:
    an element line is parsed from its first three fields alone, and
    appending [",s"] inside the parentheses of an element line that has
    three fields changes neither whether [from_file] returns a matrix nor
    which one. *)
Theorem malformed_line_fails :
  (forall path content l,
     In l (skipn 2 (_parse_matrix_file content)) -> malformed_element_line l ->
     exists e, from_file path content = Raise e) /\
  malformed_element_line "(1,2)"%string /\
  (forall line,
     parse_element_line line = parse_fields (firstn 3 (split_on "," (strip_parens line)))) /\
  (forall path content content' L1 L2 body s,
     _parse_matrix_file content =
       L1 ++ String "(" (body ++ String ")" EmptyString) :: L2 ->
     _parse_matrix_file content' =
       L1 ++ String "(" ((body ++ String "," s) ++ String ")" EmptyString) :: L2 ->
     (2 <= List.length L1)%nat ->
     (3 <= List.length (split_on "," body))%nat ->
     forall m, from_file path content' = Ok m <-> from_file path content = Ok m).
Proof.
  split; [|split; [|split]].
  - intros path content l Hin Hbad. unfold from_file.
    destruct (List.length (_parse_matrix_file content) <? 2)%nat;
      [eexists; reflexivity|].
    destruct (parse_dim (nth 0 (_parse_matrix_file content) EmptyString)),
      (parse_dim (nth 1 (_parse_matrix_file content) EmptyString));
      try (eexists; reflexivity).
    eapply load_elements_malformed; eassumption.
  - right. left. vm_compute. lia.
  - intros line. apply parse_fields_firstn.
  - intros path content content' L1 L2 body s H H' H2 H3 m. unfold from_file.
    rewrite H, H', !length_app. cbn [List.length].
    rewrite !app_nth1 by lia.
    destruct (_ <? 2)%nat; [reflexivity|].
    destruct (parse_dim (nth 0 L1 EmptyString)), (parse_dim (nth 1 L1 EmptyString));
      try reflexivity.
    rewrite !skipn_app. replace (2 - List.length L1)%nat with 0%nat by lia.
    rewrite !skipn_O. apply load_elements_extra_fields. exact H3.
Qed.

(** C8, as stated, fails: the parenthesized line ["(1,2,3,x)"] has the
    non-integer field ["x"], yet [from_file] accepts it, since only the
    first three fields are read. *)
Lemma malformed_line_counterexample :
  startswith "(" "(1,2,3,x)"%string = true /\
  endswith ")" "(1,2,3,x)"%string = true /\
  In "x"%string (split_on "," (strip_parens "(1,2,3,x)"%string)) /\
  py_int "x"%string = None /\
  exists m,
    from_file "m.txt" ("rows=2" ++ nl ++ "cols=2" ++ nl ++ "(1,2,3,x)")%string = Ok m.
Proof.
  split; [reflexivity|]. split; [reflexivity|].
  split; [vm_compute; tauto|]. split; [reflexivity|].
  eexists. reflexivity.
Qed.

(** C9: writing a matrix out with [__str__] and reading the text back
    with [from_file] gives back its [elements] mapping (the very same
    entries, in the same order). *)
Theorem save_load_roundtrip (M : SparseMatrix) (path : string) :
  NoDup (keys (elements M)) ->
  exists M', from_file path (to_str M) = Ok M' /\ elements M' = elements M.
Proof.
  intros Hnd. unfold from_file, to_str.
  change ("rows=" ++ str_Z (num_rows M))%string
    with ("rows" ++ String "=" (str_Z (num_rows M)))%string.
  change ("cols=" ++ str_Z (num_cols M))%string
    with ("cols" ++ String "=" (str_Z (num_cols M)))%string.
  destruct (header_line_facts "rows" (num_rows M)) as [Hr Pr];
    [reflexivity|reflexivity|reflexivity|].
  destruct (header_line_facts "cols" (num_cols M)) as [Hc Pc];
    [reflexivity|reflexivity|reflexivity|].
  rewrite parse_matrix_file_concat.
  2:{ discriminate. }
  2:{ constructor; [exact Hr|]. constructor; [exact Hc|].
      apply Forall_forall. intros l Hl. apply in_map_iff in Hl as [e [<- _]].
      apply entry_line_facts. }
  cbn [List.length nth skipn Nat.ltb Nat.leb]. rewrite Pr, Pc.
  destruct (load_entry_lines (elements M) (new (num_rows M) (num_cols M)))
    as [M' [Hl He]]; [exact Hnd|].
  exists M'. split; [exact Hl|exact He].
Qed.

(** ** Witnesses *)

Ltac nodup_concrete :=
  vm_compute; repeat constructor; simpl; intuition discriminate.

Lemma reachable_matrix_A : reachable matrix_A.
Proof. unfold matrix_A, set_all. cbn [fold_left]. repeat constructor. Qed.

Lemma reachable_matrix_B : reachable matrix_B.
Proof. unfold matrix_B, set_all. cbn [fold_left]. repeat constructor. Qed.

Lemma subtract_keys_of_other_witness :
  (NoDup (keys (elements matrix_B)) /\
   num_rows matrix_A = num_rows matrix_B /\ num_cols matrix_A = num_cols matrix_B) /\
  exists C, subtract matrix_A matrix_B = Ok C /\
    forall r c,
      dict_lookup (elements C) (r, c) =
      match dict_lookup (elements matrix_B) (r, c) with
      | Some b => Some (get_element matrix_A r c - b)
      | None => None
      end.
Proof.
  assert (H : NoDup (keys (elements matrix_B))) by nodup_concrete.
  split; [split; [exact H|split; reflexivity]|].
  apply (subtract_keys_of_other matrix_A matrix_B H); reflexivity.
Defined.

Lemma multiply_correct_witness :
  (wf matrix_A /\ wf matrix_B /\ num_cols matrix_A = num_rows matrix_B) /\
  exists C, multiply matrix_A matrix_B = Ok C /\
    num_rows C = num_rows matrix_A /\ num_cols C = num_cols matrix_B /\
    forall i j,
      (exists K, NoDup K /\
         forall k, ~ In k K -> get_element matrix_A i k * get_element matrix_B k j = 0) /\
      (forall K, NoDup K ->
         (forall k, ~ In k K -> get_element matrix_A i k * get_element matrix_B k j = 0) ->
         get_element C i j =
         sumZ (fun k => get_element matrix_A i k * get_element matrix_B k j) K).
Proof.
  pose proof (reachable_wf _ reachable_matrix_A) as HA.
  pose proof (reachable_wf _ reachable_matrix_B) as HB.
  split; [split; [exact HA|split; [exact HB|reflexivity]]|].
  apply (multiply_correct matrix_A matrix_B HA HB); reflexivity.
Defined.

Lemma add_commutative_witness :
  (NoDup (keys (elements matrix_A)) /\ NoDup (keys (elements matrix_B)) /\
   num_rows matrix_A = num_rows matrix_B /\ num_cols matrix_A = num_cols matrix_B) /\
  exists C D, add matrix_A matrix_B = Ok C /\ add matrix_B matrix_A = Ok D /\
    forall k,
      dict_lookup (elements C) k = dict_lookup (elements D) k /\
      dict_lookup (elements C) k =
      match dict_lookup (elements matrix_A) k, dict_lookup (elements matrix_B) k with
      | Some a, Some b => Some (a + b)
      | Some a, None => Some a
      | None, Some b => Some b
      | None, None => None
      end.
Proof.
  assert (HA : NoDup (keys (elements matrix_A))) by nodup_concrete.
  assert (HB : NoDup (keys (elements matrix_B))) by nodup_concrete.
  split; [split; [exact HA|split; [exact HB|split; reflexivity]]|].
  apply (add_commutative matrix_A matrix_B HA HB); reflexivity.
Defined.

Lemma get_set_element_witness :
  ~ In (5, 5) (map (fun '(r', c', _) => (r', c')) [(0, 0, 1); (1, 1, 0)]) /\
  get_element (set_all (new 2 2) [(0, 0, 1); (1, 1, 0)]) 5 5 = 0.
Proof.
  assert (H : ~ In (5, 5) (map (fun '(r', c', _) => (r', c')) [(0, 0, 1); (1, 1, 0)]))
    by (simpl; intuition discriminate).
  split; [exact H|].
  apply (proj1 (proj2 get_set_element) 2 2 _ 5 5 H).
Defined.

Lemma malformed_line_fails_witness :
  (In "(1,2)"%string
     (skipn 2 (_parse_matrix_file ("rows=2" ++ nl ++ "cols=2" ++ nl ++ "(1,2)")%string)) /\
   exists e, from_file "m.txt" ("rows=2" ++ nl ++ "cols=2" ++ nl ++ "(1,2)")%string = Raise e) /\
  (_parse_matrix_file ("rows=2" ++ nl ++ "cols=2" ++ nl ++ "(1,2,3)")%string =
     ["rows=2"; "cols=2"]%string ++
       String "(" ("1,2,3" ++ String ")" EmptyString)%string :: [] /\
   _parse_matrix_file ("rows=2" ++ nl ++ "cols=2" ++ nl ++ "(1,2,3,x)")%string =
     ["rows=2"; "cols=2"]%string ++
       String "(" (("1,2,3" ++ String "," "x") ++ String ")" EmptyString)%string :: [] /\
   (2 <= List.length ["rows=2"; "cols=2"]%string)%nat /\
   (3 <= List.length (split_on "," "1,2,3"%string))%nat /\
   forall m,
     from_file "m.txt" ("rows=2" ++ nl ++ "cols=2" ++ nl ++ "(1,2,3,x)")%string = Ok m <->
     from_file "m.txt" ("rows=2" ++ nl ++ "cols=2" ++ nl ++ "(1,2,3)")%string = Ok m).
Proof.
  destruct malformed_line_fails as [Hfail [Hbad [_ Hextra]]].
  assert (H : In "(1,2)"%string
     (skipn 2 (_parse_matrix_file ("rows=2" ++ nl ++ "cols=2" ++ nl ++ "(1,2)")%string)))
    by (vm_compute; tauto).
  split; [split; [exact H|apply (Hfail _ _ _ H Hbad)]|].
  assert (E : _parse_matrix_file ("rows=2" ++ nl ++ "cols=2" ++ nl ++ "(1,2,3)")%string =
     ["rows=2"; "cols=2"]%string ++
       String "(" ("1,2,3" ++ String ")" EmptyString)%string :: []) by (vm_compute; reflexivity).
  assert (E' : _parse_matrix_file ("rows=2" ++ nl ++ "cols=2" ++ nl ++ "(1,2,3,x)")%string =
     ["rows=2"; "cols=2"]%string ++
       String "(" (("1,2,3" ++ String "," "x") ++ String ")" EmptyString)%string :: [])
    by (vm_compute; reflexivity).
  assert (L : (2 <= List.length ["rows=2"; "cols=2"]%string)%nat) by (simpl; lia).
  assert (F : (3 <= List.length (split_on "," "1,2,3"%string))%nat) by (vm_compute; lia).
  split; [exact E|]. split; [exact E'|]. split; [exact L|]. split; [exact F|].
  exact (Hextra _ _ _ _ _ _ _ E E' L F).
Defined.

Lemma set_element_grows_witness :
  from_file "m.txt" ("rows=1" ++ nl ++ "cols=1" ++ nl ++ "(5, 7, 1)")%string =
    Ok (mkSparseMatrix [((5, 7), 1)] 6 8) /\
  exists nr nc ops,
    parse_dim (nth 0 (_parse_matrix_file
      ("rows=1" ++ nl ++ "cols=1" ++ nl ++ "(5, 7, 1)")%string) EmptyString) = Some nr /\
    parse_dim (nth 1 (_parse_matrix_file
      ("rows=1" ++ nl ++ "cols=1" ++ nl ++ "(5, 7, 1)")%string) EmptyString) = Some nc /\
    map parse_element_line (skipn 2 (_parse_matrix_file
      ("rows=1" ++ nl ++ "cols=1" ++ nl ++ "(5, 7, 1)")%string)) = map Some ops /\
    nr <= 6 /\ nc <= 8 /\
    (forall r c v, In (r, c, v) ops -> r < 6 /\ c < 8) /\
    (nr < 6 -> exists c v, In (6 - 1, c, v) ops) /\
    (nc < 8 -> exists r v, In (r, 8 - 1, v) ops).
Proof.
  assert (H : from_file "m.txt" ("rows=1" ++ nl ++ "cols=1" ++ nl ++ "(5, 7, 1)")%string =
    Ok (mkSparseMatrix [((5, 7), 1)] 6 8)) by (vm_compute; reflexivity).
  split; [exact H|].
  exact (proj2 (proj2 set_element_grows) _ _ _ H).
Defined.

Lemma save_load_roundtrip_witness :
  NoDup (keys (elements matrix_A)) /\
  exists M', from_file "out.txt" (to_str matrix_A) = Ok M' /\
             elements M' = elements matrix_A.
Proof.
  assert (H : NoDup (keys (elements matrix_A))) by nodup_concrete.
  split; [exact H|]. apply (save_load_roundtrip matrix_A "out.txt" H).
Defined.

Lemma reachable_in_bounds_witness :
  reachable (set_element (new 0 0) (-1) 3 5) /\
  in_bounds (set_element (new 0 0) (-1) 3 5).
Proof.
  assert (H : reachable (set_element (new 0 0) (-1) 3 5)) by repeat constructor.
  split; [exact H|]. apply (reachable_in_bounds _ H).
Defined.

Lemma dimension_mismatch_witness :
  (num_rows matrix_A <> num_rows (new 3 3) \/ num_cols matrix_A <> num_cols (new 3 3)) /\
  add matrix_A (new 3 3) = Raise (ValueError "Cannot add matrices of different dimensions.").
Proof.
  assert (H : num_rows matrix_A <> num_rows (new 3 3) \/
              num_cols matrix_A <> num_cols (new 3 3)) by (left; vm_compute; discriminate).
  split; [exact H|].
  apply (proj1 (proj1 (dimension_mismatch matrix_A (new 3 3)) H)).
Defined.

(** ** Further properties: the matrix operations *)

(** A loop that calls [set_element] once per entry, on keys not yet
    stored and inside the shape, appends its entries in order. *)
Lemma fold_set_fresh (step : SparseMatrix -> key * Z -> SparseMatrix)
  (f : Z -> Z -> Z -> Z) (L d : dict) (nr nc : Z) :
  (forall d' r c v, ~ In (r, c) (keys d') ->
     step (mkSparseMatrix d' nr nc) ((r, c), v) =
     set_element (mkSparseMatrix d' nr nc) r c (f r c v)) ->
  NoDup (keys (d ++ L)) ->
  (forall k v, In (k, v) L -> fst k < nr /\ snd k < nc) ->
  fold_left step L (mkSparseMatrix d nr nc) =
  mkSparseMatrix (d ++ map (fun '((r, c), v) => ((r, c), f r c v)) L) nr nc.
Proof.
  intros Hstep. revert d. induction L as [|[[r c] v] L IH]; intros d Hnd Hb.
  - cbn. rewrite app_nil_r. reflexivity.
  - cbn [fold_left map].
    unfold keys in Hnd. rewrite map_app in Hnd. cbn [map fst] in Hnd.
    pose proof (NoDup_remove_2 _ _ _ Hnd) as Hnot.
    destruct (Hb (r, c) v) as [Hr Hc]; [left; reflexivity|]. cbn [fst snd] in Hr, Hc.
    rewrite Hstep by (intros H; apply Hnot, in_or_app; left; exact H).
    unfold set_element. cbn [elements num_rows num_cols].
    replace (r >=? nr) with false by lia. replace (c >=? nc) with false by lia.
    rewrite dict_set_absent by (intros H; apply Hnot, in_or_app; left; exact H).
    rewrite IH.
    + rewrite <- app_assoc. reflexivity.
    + rewrite <- app_assoc. unfold keys. rewrite map_app. exact Hnd.
    + intros k w Hin. apply (Hb k w). right. exact Hin.
Qed.

Lemma map_entry_id (L : dict) : map (fun '((r, c), v) => ((r, c), v)) L = L.
Proof. induction L as [|[[r c] v] L IH]; simpl; [reflexivity|rewrite IH; reflexivity]. Qed.

Lemma wf_bounds (m : SparseMatrix) (k : key) (v : Z) :
  wf m -> In (k, v) (elements m) -> fst k < num_rows m /\ snd k < num_cols m.
Proof. intros [_ Hb] Hin. exact (Hb k v Hin). Qed.

(** X1: adding an empty matrix of the same shape, on either side, gives
    back the matrix itself, entries in the same order. *)
Theorem add_empty_matrix (A : SparseMatrix) :
  wf A ->
  add A (new (num_rows A) (num_cols A)) = Ok A /\
  add (new (num_rows A) (num_cols A)) A = Ok A.
Proof.
  destruct A as [d nr nc]. intros [Hnd Hb]. unfold add, new. cbn [elements num_rows num_cols].
  rewrite !Z.eqb_refl. cbn [negb orb fold_left]. split.
  - rewrite (fold_set_fresh add_copy_step (fun _ _ v => v) d [] nr nc).
    + cbn [app]. rewrite map_entry_id. reflexivity.
    + intros d' r c v _. reflexivity.
    + exact Hnd.
    + exact Hb.
  - rewrite (fold_set_fresh add_other_step (fun _ _ v => v) d [] nr nc).
    + cbn [app]. rewrite map_entry_id. reflexivity.
    + intros d' r c v Hn. unfold add_other_step, get_element. cbn [elements].
      apply dict_lookup_None in Hn. rewrite Hn. reflexivity.
    + exact Hnd.
    + exact Hb.
Qed.

(** X2: [subtract] returns exactly the entries of [other], in its order,
    each with value [self.get_element(row, col) - value], in the shape of
    [self]. *)
Theorem subtract_entries (A B : SparseMatrix) :
  wf B -> num_rows A = num_rows B -> num_cols A = num_cols B ->
  subtract A B =
  Ok (mkSparseMatrix
        (map (fun '((r, c), v) => ((r, c), get_element A r c - v)) (elements B))
        (num_rows A) (num_cols A)).
Proof.
  intros [Hnd Hb] Er Ec. unfold subtract. rewrite Er, Ec, !Z.eqb_refl. cbn [negb orb].
  unfold new. rewrite (fold_set_fresh (subtract_step A) (fun r c v => get_element A r c - v)
                        (elements B) [] (num_rows B) (num_cols B)).
  - reflexivity.
  - intros d' r c v _. reflexivity.
  - exact Hnd.
  - exact Hb.
Qed.

(** X3: [A.subtract(A)] stores an explicit 0 for every entry of [A]. *)
Theorem subtract_self (A : SparseMatrix) :
  wf A ->
  subtract A A =
  Ok (mkSparseMatrix (map (fun '(k, _) => (k, 0)) (elements A)) (num_rows A) (num_cols A)).
Proof.
  intros [Hnd Hb]. unfold subtract. rewrite !Z.eqb_refl. cbn [negb orb].
  unfold new. rewrite (fold_set_fresh (subtract_step A) (fun r c v => get_element A r c - v)
                        (elements A) [] (num_rows A) (num_cols A)).
  - cbn [app]. f_equal. f_equal. apply map_ext_in. intros [[r c] v] Hin.
    unfold get_element. rewrite (In_dict_lookup _ _ _ Hnd Hin). f_equal. lia.
  - intros d' r c v _. reflexivity.
  - exact Hnd.
  - exact Hb.
Qed.

Lemma dict_set_twice (d : dict) (k : key) (v1 v2 : Z) :
  dict_set (dict_set d k v1) k v2 = dict_set d k v2.
Proof.
  induction d as [|[k' v'] d IH]; simpl.
  - rewrite key_eqb_refl. reflexivity.
  - destruct (key_eqb k' k) eqn:E; simpl; rewrite E; [reflexivity|]. rewrite IH. reflexivity.
Qed.

(** X4: a second [set_element] at the same coordinates replaces the first
    one: the value is the last one written, at the place of the first
    write, and the shape is the one the second call alone would give. *)
Theorem set_element_overwrite (m : SparseMatrix) (r c v1 v2 : Z) :
  set_element (set_element m r c v1) r c v2 = set_element m r c v2.
Proof.
  destruct m as [d nr nc]. unfold set_element. cbn [elements num_rows num_cols].
  rewrite dict_set_twice. f_equal.
  - destruct (r >=? nr) eqn:E; [replace (r >=? r + 1) with false by lia|rewrite E]; reflexivity.
  - destruct (c >=? nc) eqn:E; [replace (c >=? c + 1) with false by lia|rewrite E]; reflexivity.
Qed.

(** A loop of [set_element] calls on keys inside the shape keeps it. *)
Lemma fold_keep_shape {X : Type} (step : SparseMatrix -> X -> SparseMatrix) (pos : X -> key)
  (L : list X) (m : SparseMatrix) :
  (forall res x, fst (pos x) < num_rows res -> snd (pos x) < num_cols res ->
     num_rows (step res x) = num_rows res /\ num_cols (step res x) = num_cols res) ->
  (forall x, In x L -> fst (pos x) < num_rows m /\ snd (pos x) < num_cols m) ->
  num_rows (fold_left step L m) = num_rows m /\ num_cols (fold_left step L m) = num_cols m.
Proof.
  intros Hs. revert m. induction L as [|x L IH]; intros m HL; simpl; [auto|].
  destruct (HL x) as [H1 H2]; [left; reflexivity|].
  destruct (Hs m x H1 H2) as [E1 E2].
  destruct (IH (step m x)) as [F1 F2].
  - intros y Hy. rewrite E1, E2. apply HL. right. exact Hy.
  - rewrite F1, F2, E1, E2. auto.
Qed.

Lemma add_shape (A B C : SparseMatrix) :
  wf A -> wf B -> add A B = Ok C -> num_rows C = num_rows A /\ num_cols C = num_cols A.
Proof.
  intros [_ HA] [_ HB]. unfold add. destruct (_ || _) eqn:Ed; [discriminate|].
  apply orb_false_iff in Ed as [E1 E2].
  apply negb_false_iff, Z.eqb_eq in E1. apply negb_false_iff, Z.eqb_eq in E2.
  intros H; injection H as <-.
  assert (Hstep : forall (step : SparseMatrix -> key * Z -> SparseMatrix),
            (forall res e, exists v, step res e = set_element res (fst (fst e)) (snd (fst e)) v) ->
            forall res x, fst (fst x) < num_rows res -> snd (fst x) < num_cols res ->
            num_rows (step res x) = num_rows res /\ num_cols (step res x) = num_cols res).
  { intros step Hst res x H1 H2. destruct (Hst res x) as [v ->].
    apply set_element_shape; assumption. }
  destruct (fold_keep_shape add_copy_step fst (elements A) (new (num_rows A) (num_cols A)))
    as [F1 F2].
  { apply Hstep. intros res [[r c] v]. exists v. reflexivity. }
  { intros [k v] Hin. exact (HA k v Hin). }
  destruct (fold_keep_shape add_other_step fst (elements B)
              (fold_left add_copy_step (elements A) (new (num_rows A) (num_cols A))))
    as [G1 G2].
  { apply Hstep. intros res [[r c] v]. eexists. reflexivity. }
  { intros [k v] Hin. rewrite F1, F2. cbn. rewrite E1, E2. exact (HB k v Hin). }
  rewrite G1, G2, F1, F2. auto.
Qed.

(** X5: [add] is associative: on operands of one shape, [(A + B) + C] and
    [A + (B + C)] both succeed, have that shape and store the same value
    at every key. *)
Theorem add_associative (A B C : SparseMatrix) :
  wf A -> wf B -> wf C ->
  num_rows A = num_rows B -> num_cols A = num_cols B ->
  num_rows B = num_rows C -> num_cols B = num_cols C ->
  exists AB ABC BC ABC',
    add A B = Ok AB /\ add AB C = Ok ABC /\
    add B C = Ok BC /\ add A BC = Ok ABC' /\
    num_rows ABC = num_rows ABC' /\ num_cols ABC = num_cols ABC' /\
    forall k, dict_lookup (elements ABC) k = dict_lookup (elements ABC') k.
Proof.
  intros WA WB WC R1 C1 R2 C2.
  destruct (add_ok A B R1 C1) as [AB HAB].
  destruct (add_shape A B AB WA WB HAB) as [SAB1 SAB2].
  pose proof (wf_add A B AB HAB) as WAB.
  destruct (add_ok AB C) as [ABC HABC]; [lia|lia|].
  destruct (add_shape AB C ABC WAB WC HABC) as [S1 S2].
  destruct (add_ok B C R2 C2) as [BC HBC].
  destruct (add_shape B C BC WB WC HBC) as [SBC1 SBC2].
  pose proof (wf_add B C BC HBC) as WBC.
  destruct (add_ok A BC) as [ABC' HABC']; [lia|lia|].
  destruct (add_shape A BC ABC' WA WBC HABC') as [S1' S2'].
  exists AB, ABC, BC, ABC'. do 4 (split; [assumption|]).
  split; [lia|]. split; [lia|].
  intros k.
  rewrite (add_lookup AB C ABC k (proj1 WAB) (proj1 WC) HABC).
  rewrite (add_lookup A BC ABC' k (proj1 WA) (proj1 WBC) HABC').
  rewrite (add_lookup A B AB k (proj1 WA) (proj1 WB) HAB).
  rewrite (add_lookup B C BC k (proj1 WB) (proj1 WC) HBC).
  destruct (dict_lookup (elements A) k), (dict_lookup (elements B) k),
    (dict_lookup (elements C) k); simpl; try reflexivity; f_equal; lia.
Qed.

(** Keys stored by the inner loop of [multiply]. *)
Lemma multiply_inner_keys (r1 c1 v1 : Z) (L : dict) (m : SparseMatrix) (k : key) :
  In k (keys (elements (fold_left (multiply_inner_step r1 c1 v1) L m))) <->
  In k (keys (elements m)) \/
  exists c2 v2, In ((c1, c2), v2) L /\ k = (r1, c2).
Proof.
  revert m. induction L as [|[[r2 c2] v2] L IH]; intros m; simpl.
  - split; [auto|]. intros [H|[c2 [v2 [[] _]]]]; exact H.
  - rewrite IH.
    destruct (Z.eqb_spec c1 r2) as [<-|Hne].
    + cbn [elements set_element]. rewrite keys_dict_set. split.
      * intros [[->|H]|[c [v [Hin ->]]]].
        -- right. exists c2, v2. auto.
        -- left. exact H.
        -- right. exists c, v. auto.
      * intros [H|[c [v [[Heq|Hin] ->]]]].
        -- left. right. exact H.
        -- injection Heq as -> ->. left. left. reflexivity.
        -- right. exists c, v. auto.
    + split.
      * intros [H|[c [v [Hin ->]]]]; [left; exact H|right; exists c, v; auto].
      * intros [H|[c [v [[Heq|Hin] ->]]]].
        -- left. exact H.
        -- injection Heq as <- _ _. congruence.
        -- right. exists c, v. auto.
Qed.

Lemma multiply_outer_keys (B : SparseMatrix) (L : dict) (m : SparseMatrix) (k : key) :
  In k (keys (elements (fold_left (multiply_outer_step B) L m))) <->
  In k (keys (elements m)) \/
  exists r1 c1 v1 c2 v2, In ((r1, c1), v1) L /\ In ((c1, c2), v2) (elements B) /\
                         k = (r1, c2).
Proof.
  revert m. induction L as [|[[r1 c1] v1] L IH]; intros m; simpl.
  - split; [auto|]. intros [H|[r1 [c1 [v1 [c2 [v2 [[] _]]]]]]]; exact H.
  - rewrite IH. rewrite multiply_inner_keys. split.
    + intros [[H|[c2 [v2 [Hin ->]]]]|[r [c [v [c' [v' [Hin [HB ->]]]]]]]].
      * left. exact H.
      * right. exists r1, c1, v1, c2, v2. auto.
      * right. exists r, c, v, c', v'. auto.
    + intros [H|[r [c [v [c' [v' [[Heq|Hin] [HB ->]]]]]]]].
      * left. left. exact H.
      * injection Heq as -> -> ->. left. right. exists c', v'. auto.
      * right. exists r, c, v, c', v'. auto.
Qed.

(** X6: [multiply] stores an entry at [(i, j)] exactly when a stored entry
    [(i, k)] of the first matrix meets a stored entry [(k, j)] of the
    second, also when the products there add up to 0. *)
Theorem multiply_keys (A B C : SparseMatrix) (i j : Z) :
  multiply A B = Ok C ->
  In (i, j) (keys (elements C)) <->
  exists k a b, In ((i, k), a) (elements A) /\ In ((k, j), b) (elements B).
Proof.
  unfold multiply. destruct (negb _); [discriminate|]. intros H; injection H as <-.
  rewrite multiply_outer_keys. cbn [elements new keys map]. split.
  - intros [[]|[r1 [c1 [v1 [c2 [v2 [H1 [H2 Heq]]]]]]]].
    injection Heq as -> ->. exists c1, v1, v2. auto.
  - intros [k [a [b [H1 H2]]]]. right. exists i, k, a, j, b. auto.
Qed.

(** X7: multiplying by a matrix without entries, on either side, gives a
    matrix without entries of the product's shape. *)
Theorem multiply_empty (A : SparseMatrix) (n : Z) :
  multiply A (new (num_cols A) n) = Ok (new (num_rows A) n) /\
  multiply (new n (num_rows A)) A = Ok (new n (num_cols A)).
Proof.
  unfold multiply. cbn [num_rows num_cols new elements fold_left]. rewrite !Z.eqb_refl.
  cbn [negb]. split; [|reflexivity]. f_equal.
  generalize (new (num_rows A) n) as m. intros m.
  induction (elements A) as [|[[r c] v] L IH]; [reflexivity|]. exact IH.
Qed.

Ltac zcmp :=
  repeat match goal with
  | |- context [?x =? ?y] => destruct (Z.eqb_spec x y)
  | |- context [?x <=? ?y] => destruct (Z.leb_spec x y)
  | |- context [?x <? ?y] => destruct (Z.ltb_spec x y)
  end.

Lemma set_all_fresh (m : SparseMatrix) (ops : list (Z * Z * Z)) :
  NoDup (keys (elements m ++ map triple_entry ops)) ->
  elements (set_all m ops) = elements m ++ map triple_entry ops.
Proof.
  unfold set_all. revert m. induction ops as [|[[r c] v] ops IH]; intros m Hnd; simpl.
  - rewrite app_nil_r. reflexivity.
  - unfold keys in Hnd. rewrite map_app in Hnd. cbn [map fst triple_entry] in Hnd.
    pose proof (NoDup_remove_2 _ _ _ Hnd) as Hnot.
    assert (Hset : elements (set_element m r c v) = elements m ++ [((r, c), v)]).
    { cbn [elements set_element]. apply dict_set_absent.
      intros H. apply Hnot. apply in_or_app. left. exact H. }
    rewrite IH; rewrite Hset, <- app_assoc; [reflexivity|].
    unfold keys. rewrite map_app. exact Hnd.
Qed.

Lemma set_all_shape (m : SparseMatrix) (ops : list (Z * Z * Z)) :
  (forall r c v, In (r, c, v) ops -> r < num_rows m /\ c < num_cols m) ->
  num_rows (set_all m ops) = num_rows m /\ num_cols (set_all m ops) = num_cols m.
Proof.
  intros H. unfold set_all.
  apply (fold_keep_shape _ (fun t => fst (triple_entry t))).
  - intros res [[r c] v] H1 H2. apply set_element_shape; assumption.
  - intros [[r c] v] Hin. exact (H r c v Hin).
Qed.

Lemma identity_elements (n : nat) :
  elements (identity n) = map (fun i => ((Z.of_nat i, Z.of_nat i), 1)) (seq 0 n).
Proof.
  unfold identity. rewrite set_all_fresh; cbn [elements new app].
  - rewrite map_map. reflexivity.
  - unfold keys. rewrite !map_map. cbn [triple_entry fst].
    apply (NoDup_map_inv (fun k => Z.to_nat (fst k))). rewrite map_map.
    cbn [fst]. rewrite (map_ext _ (fun x => x)) by (intros; apply Nat2Z.id).
    rewrite map_id. apply seq_NoDup.
Qed.

Lemma identity_shape (n : nat) :
  num_rows (identity n) = Z.of_nat n /\ num_cols (identity n) = Z.of_nat n.
Proof.
  apply set_all_shape. intros r c v Hin. apply in_map_iff in Hin as [i [Heq Hi]].
  injection Heq as <- <- _. apply in_seq in Hi. cbn [num_rows num_cols new]. lia.
Qed.

Lemma lookup_diag (s len : nat) (a b : Z) :
  dict_lookup (map (fun i => ((Z.of_nat i, Z.of_nat i), 1)) (seq s len)) (a, b) =
  if (a =? b) && (Z.of_nat s <=? a) && (a <? Z.of_nat (s + len)) then Some 1 else None.
Proof.
  revert s. induction len as [|len IH]; intros s; cbn [seq map dict_lookup].
  - rewrite Nat.add_0_r. zcmp; cbn [andb]; try reflexivity; lia.
  - rewrite IH. unfold key_eqb. cbn [fst snd]. zcmp; cbn [andb]; try reflexivity; lia.
Qed.

Lemma identity_dget (n : nat) (a b : Z) :
  dget (elements (identity n)) (a, b) =
  if (a =? b) && (0 <=? a) && (a <? Z.of_nat n) then 1 else 0.
Proof.
  unfold dget. rewrite identity_elements, lookup_diag. cbn [Nat.add Z.of_nat].
  destruct (_ && _ && _); reflexivity.
Qed.

Lemma sum_key (d : dict) (k : key) :
  NoDup (keys d) ->
  sumZ (fun '((r, c), v) => if key_eqb (r, c) k then v else 0) d = dget d k.
Proof.
  unfold dget. induction d as [|[[r c] v] d IH]; intros Hnd; simpl; [reflexivity|].
  inversion Hnd as [|? ? Hnotin Hnd']; subst. rewrite IH by exact Hnd'.
  destruct (key_eqb_spec (r, c) k) as [<-|]; [|lia].
  apply dict_lookup_None in Hnotin. rewrite Hnotin. simpl. lia.
Qed.

(** X8: the identity matrix is a right unit of [multiply], for a matrix
    whose stored columns are not negative. *)
Theorem multiply_identity_right (A : SparseMatrix) (n : nat) :
  wf A -> num_cols A = Z.of_nat n ->
  (forall k v, In (k, v) (elements A) -> 0 <= snd k) ->
  exists C, multiply A (identity n) = Ok C /\
    num_rows C = num_rows A /\ num_cols C = Z.of_nat n /\
    forall i j, get_element C i j = get_element A i j.
Proof.
  intros WA Hn Hpos. destruct (identity_shape n) as [In1 In2].
  pose proof (wf_fold (fun res '(r, c, v) => set_element res r c v)
                (map (fun i => (Z.of_nat i, Z.of_nat i, 1)) (seq 0 n))
                (fun m '(r, c, v) H => wf_set_element m r c v H) _ (wf_new (Z.of_nat n) (Z.of_nat n)))
    as WI.
  fold (identity n) in WI.
  destruct (multiply A (identity n)) as [C|e] eqn:HC.
  2:{ unfold multiply in HC. rewrite Hn, In1, Z.eqb_refl in HC. discriminate. }
  exists C. split; [reflexivity|].
  assert (HC' := HC). unfold multiply in HC'. rewrite Hn, In1, Z.eqb_refl in HC'.
  cbn [negb] in HC'. injection HC' as HC'.
  destruct (multiply_outer_shape (identity n) (elements A)
              (new (num_rows A) (num_cols (identity n)))) as [S1 S2].
  { intros k v Hin. exact (proj1 (wf_bounds A k v WA Hin)). }
  { intros k v Hin. cbn [num_cols new]. exact (proj2 (wf_bounds _ k v WI Hin)). }
  rewrite HC' in S1, S2. cbn [num_rows num_cols new] in S1, S2.
  split; [exact S1|]. split; [lia|].
  intros i j. rewrite (multiply_get A (identity n) C i j (proj1 WI) HC).
  rewrite get_element_dget, <- (sum_key (elements A) (i, j) (proj1 WA)).
  apply sumZ_ext_in. intros [[r1 c1] v1] Hin.
  rewrite identity_dget.
  pose proof (Hpos (r1, c1) v1 Hin) as P. pose proof (wf_bounds A (r1, c1) v1 WA Hin) as [_ B].
  cbn [fst snd] in P, B. unfold key_eqb. cbn [fst snd].
  destruct (Z.eqb_spec r1 i), (Z.eqb_spec c1 j); cbn [andb];
    destruct (0 <=? c1) eqn:E1, (c1 <? Z.of_nat n) eqn:E2; cbn [andb]; lia.
Qed.

Lemma sum_diag (s len : nat) (i : Z) (g : Z -> Z) :
  sumZ (fun '((r1, c1), v1) => if r1 =? i then v1 * g c1 else 0)
       (map (fun k => ((Z.of_nat k, Z.of_nat k), 1)) (seq s len)) =
  if (Z.of_nat s <=? i) && (i <? Z.of_nat (s + len)) then g i else 0.
Proof.
  revert s. induction len as [|len IH]; intros s; cbn [seq map sumZ fold_right].
  - rewrite Nat.add_0_r. zcmp; cbn [andb]; lia.
  - fold (sumZ (fun '((r1, c1), v1) => if r1 =? i then v1 * g c1 else 0)
            (map (fun k => ((Z.of_nat k, Z.of_nat k), 1)) (seq (S s) len))).
    rewrite IH. zcmp; cbn [andb]; subst; try lia.
Qed.

(** X9: the identity matrix is a left unit of [multiply], for a matrix
    whose stored rows are not negative. *)
Theorem multiply_identity_left (A : SparseMatrix) (n : nat) :
  wf A -> num_rows A = Z.of_nat n ->
  (forall k v, In (k, v) (elements A) -> 0 <= fst k) ->
  exists C, multiply (identity n) A = Ok C /\
    num_rows C = Z.of_nat n /\ num_cols C = num_cols A /\
    forall i j, get_element C i j = get_element A i j.
Proof.
  intros WA Hn Hpos. destruct (identity_shape n) as [In1 In2].
  pose proof (wf_fold (fun res '(r, c, v) => set_element res r c v)
                (map (fun i => (Z.of_nat i, Z.of_nat i, 1)) (seq 0 n))
                (fun m '(r, c, v) H => wf_set_element m r c v H) _ (wf_new (Z.of_nat n) (Z.of_nat n)))
    as WI.
  fold (identity n) in WI.
  destruct (multiply (identity n) A) as [C|e] eqn:HC.
  2:{ unfold multiply in HC. rewrite Hn, In2, Z.eqb_refl in HC. discriminate. }
  exists C. split; [reflexivity|].
  assert (HC' := HC). unfold multiply in HC'. rewrite Hn, In2, Z.eqb_refl in HC'.
  cbn [negb] in HC'. injection HC' as HC'.
  destruct (multiply_outer_shape A (elements (identity n))
              (new (num_rows (identity n)) (num_cols A))) as [S1 S2].
  { intros k v Hin. cbn [num_rows new]. exact (proj1 (wf_bounds _ k v WI Hin)). }
  { intros k v Hin. exact (proj2 (wf_bounds A k v WA Hin)). }
  rewrite HC' in S1, S2. cbn [num_rows num_cols new] in S1, S2.
  split; [lia|]. split; [exact S2|].
  intros i j. rewrite (multiply_get (identity n) A C i j (proj1 WA) HC).
  rewrite identity_elements, sum_diag, get_element_dget. unfold dget.
  destruct (dict_lookup (elements A) (i, j)) as [v|] eqn:E; cbn [opt_get].
  - apply dict_lookup_Some_In in E. pose proof (Hpos (i, j) v E).
    pose proof (wf_bounds A (i, j) v WA E). cbn [fst snd] in *. zcmp; cbn [andb]; lia.
  - destruct (_ && _); reflexivity.
Qed.

(** ** Further properties: [from_file], [__str__] and [save_to_file] *)


Lemma map_Some_inj {X : Type} (a b : list X) : map Some a = map Some b -> a = b.
Proof.
  revert b. induction a as [|x a IH]; intros [|y b] H; try discriminate; [reflexivity|].
  injection H as -> H. rewrite (IH b H). reflexivity.
Qed.

(** X11: when two element lines of a file give the same coordinates, the
    loaded matrix holds the value of the later one. *)
Theorem from_file_last_line_wins (path content : string) (m : SparseMatrix)
  (ops1 ops2 : list (Z * Z * Z)) (r c v : Z) :
  from_file path content = Ok m ->
  map parse_element_line (skipn 2 (_parse_matrix_file content)) =
    map Some (ops1 ++ (r, c, v) :: ops2) ->
  ~ In (r, c) (map (fun '(r', c', _) => (r', c')) ops2) ->
  get_element m r c = v.
Proof.
  intros Hf Hm Hn. unfold from_file in Hf.
  destruct (_ <? 2)%nat; [discriminate|].
  destruct (parse_dim (nth 0 (_parse_matrix_file content) EmptyString)) as [nr|],
    (parse_dim (nth 1 (_parse_matrix_file content) EmptyString)) as [nc|]; try discriminate.
  apply load_elements_ok in Hf as [ops [_ [Hm' ->]]].
  rewrite Hm in Hm'. apply map_Some_inj in Hm'. subst ops.
  unfold set_all at 1. rewrite fold_left_app. cbn [fold_left].
  change (get_element (set_all (set_element (set_all (new nr nc) ops1) r c v) ops2) r c = v).
  rewrite set_all_frame by exact Hn. rewrite get_element_set, key_eqb_refl. reflexivity.
Qed.

Lemma parse_dim_no_eq (line : string) : no_char "=" line = true -> parse_dim line = None.
Proof. intros H. unfold parse_dim. rewrite split_on_single by exact H. reflexivity. Qed.

(** X12: [from_file] rejects a file with fewer than two non-blank lines,
    and a file whose first or second line has no ['='], with the
    messages of the source. *)
Theorem from_file_header_errors (path content : string) :
  ((List.length (_parse_matrix_file content) < 2)%nat ->
     from_file path content =
     Raise (ValueError ("File " ++ path ++ " must contain at least two lines for dimensions."))) /\
  ((2 <= List.length (_parse_matrix_file content))%nat ->
     (no_char "=" (nth 0 (_parse_matrix_file content) EmptyString) = true \/
      no_char "=" (nth 1 (_parse_matrix_file content) EmptyString) = true) ->
     from_file path content = Raise (ValueError ("Invalid matrix dimensions in " ++ path ++ "."))).
Proof.
  unfold from_file. split.
  - intros H. apply Nat.ltb_lt in H. rewrite H. reflexivity.
  - intros H [E|E]; apply Nat.ltb_ge in H; rewrite H; rewrite (parse_dim_no_eq _ E);
      [reflexivity|]. destruct (parse_dim _); reflexivity.
Qed.

(** X13: a header line is read as [int] of the text between its first and
    its second ['=']: the text before the first ['='] is not checked and
    the text from a second ['='] on is ignored. *)
Theorem parse_dim_value (name s t : string) :
  no_char "=" name = true -> no_char "=" s = true ->
  parse_dim (name ++ String "=" s) = py_int s /\
  parse_dim (name ++ String "=" (s ++ String "=" t)) = py_int s.
Proof.
  intros Hn Hs. unfold parse_dim. rewrite !split_on_app by assumption. split.
  - rewrite split_on_single by exact Hs. reflexivity.
  - reflexivity.
Qed.

Lemma no_char_space (l : string) : no_char newline (String " " l) = no_char newline l.
Proof. reflexivity. Qed.

(** X14: [from_file] ignores blank lines and the indentation of lines: a
    line of whitespace inserted anywhere in the file, or a space put in
    front of every line, gives the same result. *)
Theorem from_file_blank_and_indent (path : string) (L1 L2 : list string) (b : string) :
  Forall (fun l => no_char newline l = true) (L1 ++ L2) ->
  L1 ++ L2 <> [] ->
  (no_char newline b = true -> strip b = EmptyString ->
   from_file path (String.concat nl (L1 ++ b :: L2)) =
   from_file path (String.concat nl (L1 ++ L2))) /\
  from_file path (String.concat nl (map (String " ") (L1 ++ L2))) =
  from_file path (String.concat nl (L1 ++ L2)).
Proof.
  intros HF Hne. unfold from_file.
  enough (E : (no_char newline b = true -> strip b = EmptyString ->
               _parse_matrix_file (String.concat nl (L1 ++ b :: L2)) =
               _parse_matrix_file (String.concat nl (L1 ++ L2))) /\
              _parse_matrix_file (String.concat nl (map (String " ") (L1 ++ L2))) =
              _parse_matrix_file (String.concat nl (L1 ++ L2))).
  { destruct E as [E1 E2]. split; [intros Hb Hs; rewrite (E1 Hb Hs)|rewrite E2]; reflexivity. }
  unfold _parse_matrix_file, nl. split.
  - intros Hb Hs. rewrite !split_concat.
    + rewrite !map_app, !filter_app. cbn [map filter]. rewrite Hs. reflexivity.
    + exact Hne.
    + exact HF.
    + destruct L1; discriminate.
    + apply Forall_app in HF as [H1 H2]. apply Forall_app. split; [exact H1|].
      constructor; assumption.
  - rewrite (split_concat (L1 ++ L2)) by assumption.
    rewrite (split_concat (map (String " ") (L1 ++ L2))).
    + rewrite map_map. reflexivity.
    + intros H. apply map_eq_nil in H. contradiction.
    + apply Forall_map. eapply Forall_impl; [|exact HF]. intros l Hl. rewrite no_char_space.
      exact Hl.
Qed.

Lemma load_entry_lines_exact (L d : dict) (nr nc : Z) :
  NoDup (keys (d ++ L)) ->
  (forall k v, In (k, v) L -> fst k < nr /\ snd k < nc) ->
  load_elements (mkSparseMatrix d nr nc) (map entry_line L) = Ok (mkSparseMatrix (d ++ L) nr nc).
Proof.
  revert d. induction L as [|e L IH]; intros d Hnd Hb.
  - rewrite app_nil_r. reflexivity.
  - cbn [map load_elements]. rewrite entry_line_parens, parse_entry_line.
    destruct e as [[r c] v]. cbn [fst snd].
    unfold keys in Hnd. rewrite map_app in Hnd. cbn [map fst] in Hnd.
    pose proof (NoDup_remove_2 _ _ _ Hnd) as Hnot.
    destruct (Hb (r, c) v) as [Hr Hc]; [left; reflexivity|]. cbn [fst snd] in Hr, Hc.
    unfold set_element. cbn [elements num_rows num_cols].
    replace (r >=? nr) with false by lia. replace (c >=? nc) with false by lia.
    rewrite dict_set_absent by (intros H; apply Hnot, in_or_app; left; exact H).
    rewrite IH.
    + rewrite <- app_assoc. reflexivity.
    + rewrite <- app_assoc. unfold keys. rewrite map_app. exact Hnd.
    + intros k w Hin. apply (Hb k w). right. exact Hin.
Qed.

Lemma from_file_to_str (M : SparseMatrix) (path : string) :
  wf M -> from_file path (to_str M) = Ok M.
Proof.
  intros [Hnd Hb]. unfold from_file, to_str.
  change ("rows=" ++ str_Z (num_rows M))%string
    with ("rows" ++ String "=" (str_Z (num_rows M)))%string.
  change ("cols=" ++ str_Z (num_cols M))%string
    with ("cols" ++ String "=" (str_Z (num_cols M)))%string.
  destruct (header_line_facts "rows" (num_rows M)) as [Hr Pr];
    [reflexivity|reflexivity|reflexivity|].
  destruct (header_line_facts "cols" (num_cols M)) as [Hc Pc];
    [reflexivity|reflexivity|reflexivity|].
  rewrite parse_matrix_file_concat.
  2:{ discriminate. }
  2:{ constructor; [exact Hr|]. constructor; [exact Hc|].
      apply Forall_forall. intros l Hl. apply in_map_iff in Hl as [e [<- _]].
      apply entry_line_facts. }
  cbn [List.length nth skipn Nat.ltb Nat.leb]. rewrite Pr, Pc.
  unfold new. rewrite load_entry_lines_exact; [|exact Hnd|exact Hb].
  destruct M; reflexivity.
Qed.

Lemma fs_lookup_write (fs : list (string * string)) (p t : string) :
  fs_lookup (fs_write fs p t) p = Some t.
Proof.
  induction fs as [|[q u] fs IH]; cbn [fs_write fs_lookup].
  - rewrite String.eqb_refl. reflexivity.
  - destruct (String.eqb_spec q p) as [->|]; cbn [fs_lookup].
    + rewrite String.eqb_refl. reflexivity.
    + apply String.eqb_neq in n. rewrite n. exact IH.
Qed.

Lemma replace_backslash_id (p : string) :
  no_char (ascii_of_nat 92) p = true -> replace_backslash p = p.
Proof.
  induction p as [|a p IH]; [reflexivity|]. unfold no_char. cbn [str_forall replace_backslash].
  intros H. apply andb_prop in H as [H1 H2]. apply negb_true_iff in H1.
  rewrite H1, IH by exact H2. reflexivity.
Qed.

(** X15: [save_to_file] followed by [from_file] on the same path, a path
    without backslashes, gives back the saved matrix, shape included. *)
Theorem save_then_load (M : SparseMatrix) (path : string) (w : World) :
  wf M -> no_char (ascii_of_nat 92) path = true ->
  (save_to_file M path ;; load_from_file path) w =
  (Done M, mkWorld (fs_write (files w) path (to_str M)) (stdin w) (stdout w)).
Proof.
  intros HM Hp. unfold bind_io, save_to_file, load_from_file, read_matrix_file.
  cbn [files]. unfold bind_io. cbn [files]. rewrite replace_backslash_id, fs_lookup_write by exact Hp.
  rewrite from_file_to_str by exact HM. reflexivity.
Qed.

(** ** Further properties: the driver [do_some_operations] *)

Lemma lookup_op_Some (choice name method : string) :
  lookup_op operations choice = Some (name, method) ->
  In name ["addition"; "subtraction"; "multiplication"]%string /\
  exists op, (op = add \/ op = subtract \/ op = multiply) /\
    forall m1 m2, call_method m1 method m2 = lift (op m1 m2).
Proof.
  unfold operations. cbn [lookup_op].
  destruct (String.eqb "A" choice); [intros H; injection H as <- <-|].
  { split; [left; reflexivity|]. exists add. split; [left; reflexivity|]. reflexivity. }
  destruct (String.eqb "B" choice); [intros H; injection H as <- <-|].
  { split; [right; left; reflexivity|]. exists subtract. split; [right; left; reflexivity|].
    reflexivity. }
  destruct (String.eqb "C" choice); [intros H; injection H as <- <-|discriminate].
  split; [right; right; left; reflexivity|]. exists multiply.
  split; [right; right; reflexivity|]. reflexivity.
Qed.

Lemma log_tail (X out : list console_item) (log : list console_item) (x : console_item) :
  X = out ++ log -> X ++ [x] = out ++ log ++ [x].
Proof. intros ->. rewrite app_assoc. reflexivity. Qed.

Ltac drv := cbv beta iota zeta delta [bind_io print get_user_input files stdin stdout ret raise
                 load_from_file read_matrix_file lift save_to_file].

Ltac close_error :=
  eexists; split; [reflexivity|]; left; split; [reflexivity|];
  eexists; eexists; cbn [stdout]; apply log_tail; rewrite <- !app_assoc; reflexivity.

(** X16: whatever the user types and whatever the files hold, the driver
    returns normally and either leaves the files as they were and ends
    its output with an [Error: ...] line, or writes exactly one file,
    [addition_output.txt], [subtraction_output.txt] or
    [multiplication_output.txt], holding the text form of a matrix, and
    ends its output with the success line. *)
Theorem driver_outcome (w : World) :
  exists w', do_some_operations w = (Done tt, w') /\
  ((files w' = files w /\
    exists log msg, stdout w' = stdout w ++ log ++ [Printed ("Error: " ++ msg)%string]) \/
   (exists name r, In name ["addition"; "subtraction"; "multiplication"]%string /\
      files w' = fs_write (files w) (name ++ "_output.txt") (to_str r) /\
      exists log, stdout w' = stdout w ++ log ++
        [Printed ("Operation completed successfully. Output saved to "
                  ++ (name ++ "_output.txt") ++ ".")%string])).
Proof.
  destruct w as [fs inp out]. unfold do_some_operations, try_except. drv.
  destruct inp as [|choice inp]; drv; [close_error|].
  destruct (lookup_op operations choice) as [[name method]|] eqn:Hop; drv; [|close_error].
  destruct (lookup_op_Some choice name method Hop) as [Hname [op [_ Hcall]]].
  destruct inp as [|file1 inp]; drv; [close_error|].
  destruct inp as [|file2 inp]; drv; [close_error|].
  destruct (fs_lookup fs (replace_backslash file1)) as [text1|]; drv; [|close_error].
  destruct (from_file file1 text1) as [m1|[msg1]]; drv; [|close_error].
  destruct (fs_lookup fs (replace_backslash file2)) as [text2|]; drv; [|close_error].
  destruct (from_file file2 text2) as [m2|[msg2]]; drv; [|close_error].
  rewrite Hcall. drv.
  destruct (op m1 m2) as [r|[msg]]; drv; [|close_error].
  eexists; split; [reflexivity|]. right. exists name, r. split; [exact Hname|].
  split; [reflexivity|]. eexists. cbn [stdout]. apply log_tail. rewrite <- !app_assoc. reflexivity.
Qed.

Lemma lookup_op_None (choice : string) :
  ~ In choice ["A"; "B"; "C"]%string -> lookup_op operations choice = None.
Proof.
  intros Hn. unfold operations. cbn [lookup_op].
  destruct (String.eqb_spec "A" choice); [subst; exfalso; apply Hn; left; reflexivity|].
  destruct (String.eqb_spec "B" choice); [subst; exfalso; apply Hn; right; left; reflexivity|].
  destruct (String.eqb_spec "C" choice); [subst; exfalso; apply Hn; right; right; left; reflexivity|].
  reflexivity.
Qed.


Lemma lookup_op_valid (choice : string) :
  In choice ["A"; "B"; "C"]%string -> exists name method, lookup_op operations choice = Some (name, method).
Proof. intros [<-|[<-|[<-|[]]]]; eexists; eexists; reflexivity. Qed.

(** X17: an answer other than [A], [B] or [C] is rejected: only that line
    is read, no file is written, and the driver prints
    [Error: Invalid option.] after the menu and the prompt. *)
Theorem driver_invalid_choice (w : World) (choice : string) (rest : list string) :
  stdin w = choice :: rest -> ~ In choice ["A"; "B"; "C"]%string ->
  do_some_operations w =
  (Done tt, mkWorld (files w) rest
     (stdout w ++ menu ++
      [Prompted "Choose operation (A,B,C): "; Printed "Error: Invalid option."]%string)).
Proof.
  destruct w as [fs inp out]. cbn [stdin files stdout]. intros -> Hn.
  unfold do_some_operations, try_except. drv. rewrite (lookup_op_None choice Hn). drv.
  rewrite <- !app_assoc. reflexivity.
Qed.


(** X19: when the first matrix file does not exist, the driver prints
    [Error: File not found: <path>] as typed, and writes no file. *)
Theorem driver_missing_file (w : World) (choice file1 file2 : string) (rest : list string) :
  stdin w = choice :: file1 :: file2 :: rest -> In choice ["A"; "B"; "C"]%string ->
  fs_lookup (files w) (replace_backslash file1) = None ->
  do_some_operations w =
  (Done tt, mkWorld (files w) rest
     (stdout w ++ menu ++
      [Prompted "Choose operation (A,B,C): ";
       Prompted "Enter path for the first matrix file: ";
       Prompted "Enter path for the second matrix file: ";
       Printed ("Loading first matrix from " ++ file1 ++ "...");
       Printed ("Error: File not found: " ++ file1)]%string)).
Proof.
  destruct w as [fs inp out]. cbn [stdin files stdout]. intros -> Hc H1.
  destruct (lookup_op_valid choice Hc) as [name [method Hm]].
  unfold do_some_operations, try_except. drv. rewrite Hm. drv. rewrite H1. drv.
  rewrite <- !app_assoc. reflexivity.
Qed.


(** ** Witnesses of the further properties *)

Lemma wf_matrix_A : wf matrix_A.
Proof. apply reachable_wf, reachable_matrix_A. Qed.
Lemma wf_matrix_B : wf matrix_B.
Proof. apply reachable_wf, reachable_matrix_B. Qed.

Lemma add_empty_matrix_witness :
  wf matrix_A /\
  add matrix_A (new 2 2) = Ok matrix_A /\ add (new 2 2) matrix_A = Ok matrix_A.
Proof.
  split; [exact wf_matrix_A|]. exact (add_empty_matrix matrix_A wf_matrix_A).
Defined.

Lemma subtract_entries_witness :
  (wf matrix_B /\ num_rows matrix_A = num_rows matrix_B /\ num_cols matrix_A = num_cols matrix_B) /\
  subtract matrix_A matrix_B =
  Ok (mkSparseMatrix
        (map (fun '((r, c), v) => ((r, c), get_element matrix_A r c - v)) (elements matrix_B))
        (num_rows matrix_A) (num_cols matrix_A)).
Proof.
  assert (H : wf matrix_B /\ num_rows matrix_A = num_rows matrix_B /\
              num_cols matrix_A = num_cols matrix_B)
    by (split; [exact wf_matrix_B|split; reflexivity]).
  split; [exact H|]. destruct H as [H1 [H2 H3]].
  exact (subtract_entries matrix_A matrix_B H1 H2 H3).
Defined.

Lemma subtract_self_witness :
  wf matrix_A /\
  subtract matrix_A matrix_A = Ok (mkSparseMatrix [((0, 0), 0); ((0, 1), 0); ((1, 0), 0); ((1, 1), 0)] 2 2).
Proof.
  split; [exact wf_matrix_A|]. exact (subtract_self matrix_A wf_matrix_A).
Defined.

Lemma add_associative_witness :
  (wf matrix_A /\ wf matrix_B /\ wf matrix_A) /\
  exists AB ABC BC ABC',
    add matrix_A matrix_B = Ok AB /\ add AB matrix_A = Ok ABC /\
    add matrix_B matrix_A = Ok BC /\ add matrix_A BC = Ok ABC' /\
    num_rows ABC = num_rows ABC' /\ num_cols ABC = num_cols ABC' /\
    forall k, dict_lookup (elements ABC) k = dict_lookup (elements ABC') k.
Proof.
  split; [split; [exact wf_matrix_A|split; [exact wf_matrix_B|exact wf_matrix_A]]|].
  apply (add_associative matrix_A matrix_B matrix_A wf_matrix_A wf_matrix_B wf_matrix_A);
    reflexivity.
Defined.

Lemma multiply_keys_witness :
  multiply matrix_A matrix_B = Ok (mkSparseMatrix (elements matrix_A) 2 2) /\
  (In (0, 1) (keys (elements matrix_A)) <->
   exists k a b, In ((0, k), a) (elements matrix_A) /\ In ((k, 1), b) (elements matrix_B)).
Proof.
  assert (H : multiply matrix_A matrix_B = Ok (mkSparseMatrix (elements matrix_A) 2 2))
    by reflexivity.
  split; [exact H|]. exact (multiply_keys matrix_A matrix_B _ 0 1 H).
Defined.

Ltac nonneg_entries :=
  intros k v Hin; vm_compute in Hin;
  repeat destruct Hin as [Hin|Hin]; try contradiction; inversion Hin; subst; cbn; lia.

Lemma multiply_identity_right_witness :
  (wf matrix_A /\ num_cols matrix_A = Z.of_nat 2 /\
   (forall k v, In (k, v) (elements matrix_A) -> 0 <= snd k)) /\
  exists C, multiply matrix_A (identity 2) = Ok C /\
    num_rows C = num_rows matrix_A /\ num_cols C = Z.of_nat 2 /\
    forall i j, get_element C i j = get_element matrix_A i j.
Proof.
  assert (H : wf matrix_A /\ num_cols matrix_A = Z.of_nat 2 /\
              (forall k v, In (k, v) (elements matrix_A) -> 0 <= snd k)).
  { split; [exact wf_matrix_A|split; [reflexivity|nonneg_entries]]. }
  split; [exact H|]. destruct H as [H1 [H2 H3]].
  exact (multiply_identity_right matrix_A 2 H1 H2 H3).
Defined.

Lemma multiply_identity_left_witness :
  (wf matrix_A /\ num_rows matrix_A = Z.of_nat 2 /\
   (forall k v, In (k, v) (elements matrix_A) -> 0 <= fst k)) /\
  exists C, multiply (identity 2) matrix_A = Ok C /\
    num_rows C = Z.of_nat 2 /\ num_cols C = num_cols matrix_A /\
    forall i j, get_element C i j = get_element matrix_A i j.
Proof.
  assert (H : wf matrix_A /\ num_rows matrix_A = Z.of_nat 2 /\
              (forall k v, In (k, v) (elements matrix_A) -> 0 <= fst k)).
  { split; [exact wf_matrix_A|split; [reflexivity|nonneg_entries]]. }
  split; [exact H|]. destruct H as [H1 [H2 H3]].
  exact (multiply_identity_left matrix_A 2 H1 H2 H3).
Defined.


Lemma from_file_last_line_wins_witness :
  (from_file "m.txt" ("rows=2" ++ nl ++ "cols=2" ++ nl ++ "(1, 0, 7)" ++ nl ++ "(1, 0, 9)")%string =
     Ok (mkSparseMatrix [((1, 0), 9)] 2 2) /\
   map parse_element_line
     (skipn 2 (_parse_matrix_file
       ("rows=2" ++ nl ++ "cols=2" ++ nl ++ "(1, 0, 7)" ++ nl ++ "(1, 0, 9)")%string)) =
     map Some ([(1, 0, 7)] ++ (1, 0, 9) :: []) /\
   ~ In (1, 0) (map (fun '(r', c', _) => (r', c')) ([] : list (Z * Z * Z)))) /\
  get_element (mkSparseMatrix [((1, 0), 9)] 2 2) 1 0 = 9.
Proof.
  assert (H1 : from_file "m.txt"
                 ("rows=2" ++ nl ++ "cols=2" ++ nl ++ "(1, 0, 7)" ++ nl ++ "(1, 0, 9)")%string =
               Ok (mkSparseMatrix [((1, 0), 9)] 2 2)) by reflexivity.
  assert (H2 : map parse_element_line
                 (skipn 2 (_parse_matrix_file
                   ("rows=2" ++ nl ++ "cols=2" ++ nl ++ "(1, 0, 7)" ++ nl ++ "(1, 0, 9)")%string)) =
               map Some ([(1, 0, 7)] ++ (1, 0, 9) :: [])) by reflexivity.
  assert (H3 : ~ In (1, 0) (map (fun '(r', c', _) => (r', c')) ([] : list (Z * Z * Z))))
    by (intros []).
  split; [auto|]. exact (from_file_last_line_wins _ _ _ _ _ 1 0 9 H1 H2 H3).
Defined.

Lemma from_file_header_errors_witness :
  ((2 <= List.length (_parse_matrix_file ("rows 2" ++ nl ++ "cols=2")%string))%nat /\
   no_char "=" (nth 0 (_parse_matrix_file ("rows 2" ++ nl ++ "cols=2")%string) EmptyString) = true) /\
  from_file "m.txt" ("rows 2" ++ nl ++ "cols=2")%string =
    Raise (ValueError "Invalid matrix dimensions in m.txt.") /\
  from_file "m.txt" (" " ++ nl ++ "rows=2")%string =
    Raise (ValueError "File m.txt must contain at least two lines for dimensions.").
Proof.
  assert (H1 : (2 <= List.length (_parse_matrix_file ("rows 2" ++ nl ++ "cols=2")%string))%nat)
    by (vm_compute; lia).
  assert (H2 : no_char "=" (nth 0 (_parse_matrix_file ("rows 2" ++ nl ++ "cols=2")%string)
                             EmptyString) = true) by reflexivity.
  assert (H3 : (List.length (_parse_matrix_file (" " ++ nl ++ "rows=2")%string) < 2)%nat)
    by (vm_compute; lia).
  split; [auto|]. split.
  - exact (proj2 (from_file_header_errors "m.txt" _) H1 (or_introl H2)).
  - exact (proj1 (from_file_header_errors "m.txt" _) H3).
Defined.

Lemma parse_dim_value_witness :
  (no_char "=" "cols" = true /\ no_char "=" " 12 " = true) /\
  parse_dim "cols= 12 "%string = Some 12 /\ parse_dim "cols= 12 =5"%string = Some 12.
Proof.
  assert (H : no_char "=" "cols" = true /\ no_char "=" " 12 " = true) by (split; reflexivity).
  split; [exact H|]. destruct H as [H1 H2].
  destruct (parse_dim_value "cols" " 12 " "5" H1 H2) as [E1 E2].
  split; [exact E1|exact E2].
Defined.

Lemma from_file_blank_and_indent_witness :
  (Forall (fun l => no_char newline l = true) (app ["rows=1"; "cols=1"] ["(0, 0, 4)"])%string /\
   (app ["rows=1"; "cols=1"] ["(0, 0, 4)"])%string <> [] /\
   no_char newline (String " " (String (ascii_of_nat 160) (String (ascii_of_nat 133) EmptyString)))
     = true /\
   strip (String " " (String (ascii_of_nat 160) (String (ascii_of_nat 133) EmptyString)))
     = EmptyString) /\
  from_file "m.txt" (String.concat nl (app ["rows=1"; "cols=1"]
    (String " " (String (ascii_of_nat 160) (String (ascii_of_nat 133) EmptyString))
       :: ["(0, 0, 4)"]))%string) =
  from_file "m.txt" (String.concat nl (app ["rows=1"; "cols=1"] ["(0, 0, 4)"])%string).
Proof.
  assert (H1 : Forall (fun l => no_char newline l = true)
                 (app ["rows=1"; "cols=1"] ["(0, 0, 4)"])%string)
    by (repeat constructor).
  assert (H2 : (app ["rows=1"; "cols=1"] ["(0, 0, 4)"])%string <> []) by discriminate.
  assert (H3 : no_char newline
    (String " " (String (ascii_of_nat 160) (String (ascii_of_nat 133) EmptyString))) = true)
    by reflexivity.
  assert (H4 : strip
    (String " " (String (ascii_of_nat 160) (String (ascii_of_nat 133) EmptyString)))
    = EmptyString) by reflexivity.
  split; [auto|].
  exact (proj1 (from_file_blank_and_indent "m.txt" _ _ _ H1 H2) H3 H4).
Defined.

Lemma save_then_load_witness :
  (wf matrix_A /\ no_char (ascii_of_nat 92) "out/a.txt" = true) /\
  (save_to_file matrix_A "out/a.txt" ;; load_from_file "out/a.txt") (mkWorld [] [] []) =
  (Done matrix_A, mkWorld [("out/a.txt", to_str matrix_A)]%string [] []).
Proof.
  assert (H : no_char (ascii_of_nat 92) "out/a.txt" = true) by reflexivity.
  split; [split; [exact wf_matrix_A|exact H]|].
  exact (save_then_load matrix_A "out/a.txt" (mkWorld [] [] []) wf_matrix_A H).
Defined.

Lemma driver_invalid_choice_witness :
  (stdin (mkWorld [] ["a"; "A"]%string []) = ["a"; "A"]%string /\ ~ In "a"%string ["A"; "B"; "C"]%string) /\
  do_some_operations (mkWorld [] ["a"; "A"]%string []) =
  (Done tt, mkWorld [] ["A"%string]
     (menu ++ [Prompted "Choose operation (A,B,C): "; Printed "Error: Invalid option."]%string)).
Proof.
  assert (H1 : stdin (mkWorld [] ["a"; "A"]%string []) = ["a"; "A"]%string) by reflexivity.
  assert (H2 : ~ In "a"%string ["A"; "B"; "C"]%string)
    by (intros [H|[H|[H|[]]]]; discriminate).
  split; [auto|]. exact (driver_invalid_choice _ "a" ["A"%string] H1 H2).
Defined.


Lemma driver_missing_file_witness :
  (stdin (mkWorld [] ["B"; "none.txt"; "b.txt"]%string []) = ["B"; "none.txt"; "b.txt"]%string /\
   In "B"%string ["A"; "B"; "C"]%string /\
   fs_lookup [] (replace_backslash "none.txt") = None) /\
  stdout (snd (do_some_operations (mkWorld [] ["B"; "none.txt"; "b.txt"]%string []))) =
  menu ++ [Prompted "Choose operation (A,B,C): ";
           Prompted "Enter path for the first matrix file: ";
           Prompted "Enter path for the second matrix file: ";
           Printed "Loading first matrix from none.txt...";
           Printed "Error: File not found: none.txt"]%string.
Proof.
  assert (H0 : stdin (mkWorld [] ["B"; "none.txt"; "b.txt"]%string []) =
               ["B"; "none.txt"; "b.txt"]%string) by reflexivity.
  assert (H1 : In "B"%string ["A"; "B"; "C"]%string) by (right; left; reflexivity).
  assert (H2 : fs_lookup [] (replace_backslash "none.txt") = None) by reflexivity.
  split; [auto|].
  rewrite (driver_missing_file (mkWorld [] ["B"; "none.txt"; "b.txt"]%string []) "B" "none.txt"
             "b.txt" [] H0 H1 H2).
  reflexivity.
Defined.

